(** * Remote file fetch pipeline of gatsby-source-filesystem

    A shallow embedding of
    [packages/gatsby-source-filesystem/src/create-remote-file-node.js]:
    the deduplicating entry point ([module.exports], documented there as
    createRemoteFileNode), the promisified queue push ([pushTask]), the
    queue worker ([pushToQueue]),
    the fetch-and-materialise routine ([processRemoteNode]) and the
    download itself ([requestRemoteNode]).

    Promises are handles (natural numbers) into a table of settled values;
    the process-wide objects of the module ([processingCache], the queue,
    the Gatsby cache, the disk) are fields of one explicit state. *)

From Stdlib Require Import ZArith Ascii String List Lia.
From stdpp Require Import gmap strings list fin_maps.

Local Open Scope string_scope.
Local Open Scope list_scope.
Local Open Scope nat_scope.

(** ** JavaScript values that the module inspects *)

Module JS.

(** The result of [typeof]. *)
Inductive jstype :=
| TyUndefined | TyObject | TyFunction | TyString | TyNumber | TyBoolean.

Definition type_name (t : jstype) : string :=
  match t with
  | TyUndefined => "undefined"
  | TyObject => "object"
  | TyFunction => "function"
  | TyString => "string"
  | TyNumber => "number"
  | TyBoolean => "boolean"
  end.

Definition is_function (t : jstype) : bool :=
  match t with TyFunction => true | _ => false end.

Definition is_object (t : jstype) : bool :=
  match t with TyObject => true | _ => false end.

(** A property that holds a string when it is there ([htaccess_user],
    [htaccess_pass]). *)
Inductive strval :=
| SUndefined
| SNull
| SStr (s : string).

(** ToBoolean. *)
Definition truthy (v : strval) : bool :=
  match v with
  | SStr s => negb (String.eqb s "")
  | _ => false
  end.

(** ToString, as a template literal applies it. *)
Definition template (v : strval) : string :=
  match v with
  | SUndefined => "undefined"
  | SNull => "null"
  | SStr s => s
  end.

(** The own-or-inherited names of an object created by the literal [{}]:
    besides its own keys it answers to those of [Object.prototype]. *)
Definition Object_prototype_keys : list string :=
  [ "constructor"; "__defineGetter__"; "__defineSetter__";
    "hasOwnProperty"; "__lookupGetter__"; "__lookupSetter__";
    "isPrototypeOf"; "propertyIsEnumerable"; "toString"; "valueOf";
    "__proto__"; "toLocaleString" ].

Definition inherited (key : string) : bool :=
  bool_decide (key ∈ Object_prototype_keys).

(** The character U+0022. *)
Definition dquote : string := String (Ascii.ascii_of_nat 34) EmptyString.

End JS.

Import JS.

(** ** Data model *)

Definition bytes := list Byte.byte.
Definition error := string.
Definition handle := nat.

(** [Auth]: the two basic-auth credentials. *)
Record Auth := mkAuth {
  htaccess_user : strval;
  htaccess_pass : strval;
}.

(** The default [auth = {}]. *)
Definition empty_auth : Auth := mkAuth SUndefined SUndefined.

(** What a caller may pass for [store]: the redux store, whose state
    carries [program.directory], or any other value, of which only the
    [typeof] matters ([null] is [NotAStore TyObject]). *)
Inductive store_arg :=
| ReduxStore (directory : string)
| NotAStore (ty : jstype).

Definition typeof_store (s : store_arg) : jstype :=
  match s with
  | ReduxStore _ => TyObject
  | NotAStore ty => ty
  end.

(** What a caller may pass for [cache]: the Gatsby cache or something else. *)
Inductive cache_arg :=
| GatsbyCache
| NotACache (ty : jstype).

Definition typeof_cache (c : cache_arg) : jstype :=
  match c with
  | GatsbyCache => TyObject
  | NotACache ty => ty
  end.

(** The options object of the entry point. [ext] is [None] when it is
    [undefined] or [null]; [auth] is [None] when it is [null], the default
    [{}] having been applied to a missing one; the two callables are
    represented by their [typeof]. *)
Record CreateRemoteFileNodePayload := mkPayload {
  url : strval;
  store : store_arg;
  cache : cache_arg;
  createNode : jstype;
  auth : option Auth;
  createNodeId : jstype;
  ext : option string;
}.

(** A task in the queue: the payload with its url known to be a string. *)
Record Task := mkTask {
  task_url : string;
  task_store : store_arg;
  task_cache : cache_arg;
  task_auth : option Auth;
  task_ext : option string;
}.

(** The request options built by [processRemoteNode]. *)
Record Headers := mkHeaders {
  hdr_auth : option string;
  hdr_if_none_match : option string;
}.

(** The http response as the module reads it. *)
Record Response := mkResponse {
  statusCode : Z;
  headers : gmap string string;
}.

(** Disk entries. The map of the file system records regular files and the
    directories this module makes itself with [ensureDir]. *)
Inductive fsentry :=
| Dir
| File (content : bytes).

(** What the two streams of one download do. *)
Inductive request_event :=
| ResponseStreamError (e : error)
    (* [responseStream] emits `error`: transport failure after the retries,
       or a 4xx/5xx status *)
| WriteStreamError (e : error) (written : option bytes)
    (* [fsWriteStream] emits `error`; [written] is what the temp file holds
       by then, [None] when it could not even be opened *)
| ResponseFinished (r : Response) (body : bytes).
    (* `response`, then [fsWriteStream] emits `finish` *)

(** What the collaborators do during one run of [processRemoteNode]. *)
Record World := mkWorld {
  ensureDir_fails : option error;
  cache_get_fails : option error;
  request : request_event;
  cache_set_fails : option error;
  fs_op_fails : option error;          (* [fs.move] or [fs.remove] rejects *)
  createNode_throws : option error;
}.

(** Observable calls, in order. *)
Inductive event :=
| EvRequest (u : string) (h : Headers) (tmp : string)
| EvReadChunk (path : string).

(** The mutable world outside the module. *)
Record Effects (FileNode : Type) := mkEffects {
  disk : gmap string fsentry;
  header_cache : gmap string (gmap string string);
  nodes : list (FileNode * string);    (* [createNode(fileNode, { name })] *)
  trace : list event;
}.
Arguments mkEffects {FileNode}.
Arguments disk {FileNode}.
Arguments header_cache {FileNode}.
Arguments nodes {FileNode}.
Arguments trace {FileNode}.

(** The value a promise settles with. *)
Inductive value (FileNode : Type) :=
| VUndefined
| VNull
| VNode (n : FileNode)
| VError (e : error).
Arguments VUndefined {FileNode}.
Arguments VNull {FileNode}.
Arguments VNode {FileNode}.
Arguments VError {FileNode}.

(** ** An async computation: state that survives a rejection *)

Definition Async (S A : Type) : Type := S -> S * (A + error).

Definition resolve {S A} (a : A) : Async S A := fun s => (s, inl a).
Definition reject {S A} (e : error) : Async S A := fun s => (s, inr e).

Definition await {S A B} (m : Async S A) (k : A -> Async S B) : Async S B :=
  fun s =>
    match m s with
    | (s', inl a) => k a s'
    | (s', inr e) => (s', inr e)
    end.

(** [try { body } catch (err) { handler }] *)
Definition try_catch {S A} (body : Async S A) (handler : error -> Async S A)
  : Async S A :=
  fun s =>
    match body s with
    | (s', inl a) => (s', inl a)
    | (s', inr e) => handler e s'
    end.

Definition modify {S} (f : S -> S) : Async S unit := fun s => (f s, inl tt).
Definition inspect {S A} (f : S -> A) : Async S A := fun s => (s, inl (f s)).
Definition fail_if {S} (o : option error) : Async S unit :=
  match o with
  | Some e => reject e
  | None => resolve tt
  end.

Notation "'await!' x ':=' m 'in' k" := (await m (fun x => k))
  (at level 10, x name, m at level 100, k at level 200).

(** ** File system primitives (fs-extra) *)

(** [mkdir] of a directory that is not there yet. *)
Definition fs_mkdir (p : string) (d : gmap string fsentry)
  : gmap string fsentry :=
  match d !! p with
  | None => <[p := Dir]> d
  | Some _ => d
  end.

(** [mkdirp]: one directory after the other, outermost first. *)
Fixpoint fs_mkdirs (dirs : list string) (d : gmap string fsentry)
  : gmap string fsentry :=
  match dirs with
  | [] => d
  | p :: dirs' => fs_mkdirs dirs' (fs_mkdir p d)
  end.

(** [fs.ensureDir(p)]: makes [p] and every missing directory above it;
    [parents] are the directories above [p], outermost first. *)
Definition fs_ensureDir (parents : list string) (p : string)
    (d : gmap string fsentry) : gmap string fsentry :=
  fs_mkdirs (parents ++ [p]) d.

(** [fs.removeSync] / [fs.remove]: silent when the path is absent. *)
Definition fs_remove (p : string) (d : gmap string fsentry)
  : gmap string fsentry :=
  delete p d.

(** [fs.move(src, dest, { overwrite: true })]: fails when [src] is missing;
    otherwise makes the missing directories above [dest] ([parents],
    outermost first) and puts the entry at [dest], replacing whatever is
    there. *)
Definition fs_move (src dest : string) (parents : list string)
    (d : gmap string fsentry) : option (gmap string fsentry) :=
  match d !! src with
  | Some e => Some (<[dest := e]> (delete src (fs_mkdirs parents d)))
  | None => None
  end.

(** [readChunk.sync(path, 0, n)]: throws unless [path] is a file. *)
Definition readChunk_sync (p : string) (n : nat) (d : gmap string fsentry)
  : option bytes :=
  match d !! p with
  | Some (File c) => Some (take n c)
  | _ => None
  end.

(** ** Constants of the module *)

Definition CACHE_DIR : string := ".cache".
Definition FS_PLUGIN_DIR : string := "gatsby-source-filesystem".
Definition OWNER : string := "gatsby-source-filesystem".

(** [concurrent: 200] in the queue options. *)
Definition concurrent : nat := 200.

(** [cacheId = url => `create-remote-file-node-${url}`] *)
Definition cacheId (u : string) : string := "create-remote-file-node-" +:+ u.

(** The truthiness test [cachedHeaders && cachedHeaders.etag]. *)
Definition cached_etag (cachedHeaders : option (gmap string string))
  : option string :=
  match cachedHeaders with
  | Some h =>
      match h !! "etag" with
      | Some t => if String.eqb t "" then None else Some t
      | None => None
      end
  | None => None
  end.

(** Lines 195-197: the [auth] request option. *)
Definition auth_header (a : option Auth) : option string :=
  match a with
  | Some a =>
      if truthy (htaccess_pass a) || truthy (htaccess_user a)
      then Some (template (htaccess_user a) +:+ ":" +:+ template (htaccess_pass a))
      else None
  | None => None
  end.

Definition build_headers (a : option Auth)
    (cachedHeaders : option (gmap string string)) : Headers :=
  {| hdr_auth := auth_header a;
     hdr_if_none_match := cached_etag cachedHeaders |}.

(** ** The collaborators

    What the module imports and does not define: [valid-url], [crypto],
    [path], [file-type], [./utils] and [./create-file-node]. *)

Class Collaborators := {
  (** The domain object that [createFileNode] builds. *)
  FileNode : Type;
  (** [valid-url]'s [isWebUri]: the uri itself, or [undefined]. *)
  isWebUri : string -> option string;
  (** [crypto]'s md5 digest in hex. *)
  md5_hex : string -> string;
  (** [./utils]. *)
  getRemoteFileName : string -> string;
  getRemoteFileExtension : string -> string;
  (** Node's [path.join], two segments at a time. *)
  path_join : string -> string -> string;
  (** Node's [path.dirname], applied again and again: the directories
      above a path, the root left out, outermost first. *)
  path_ancestors : string -> list string;
  (** [file-type]: the canonical extension of a signature, if recognised,
      and how many leading bytes it wants. *)
  fileType : bytes -> option string;
  fileType_minimumBytes : nat;
  (** [./create-file-node]: stats the file and builds the node; [None]
      when it throws. The caller's [createNodeId] is closed over. *)
  createFileNode : gmap string fsentry -> string -> option FileNode;
  (** The assignment [fileNode.internal.description = ...]. *)
  set_description : FileNode -> string -> FileNode;
}.

(** ** The pipeline *)

Section Pipeline.

Context {C : Collaborators}.

Abbreviation Eff := (Effects FileNode).
Abbreviation Value := (value FileNode).

Definition on_disk (f : gmap string fsentry -> gmap string fsentry)
    (e : Eff) : Eff :=
  mkEffects (f (disk e)) (header_cache e) (nodes e) (trace e).

Definition on_cache
    (f : gmap string (gmap string string) -> gmap string (gmap string string))
    (e : Eff) : Eff :=
  mkEffects (disk e) (f (header_cache e)) (nodes e) (trace e).

Definition register (n : FileNode) (owner : string) (e : Eff) : Eff :=
  mkEffects (disk e) (header_cache e) (nodes e ++ [(n, owner)]) (trace e).

Definition log (ev : event) (e : Eff) : Eff :=
  mkEffects (disk e) (header_cache e) (nodes e) (trace e ++ [ev]).

(** [createHash] *)
Definition createHash (str : string) : string := md5_hex str.

(** [createFilePath = (directory, filename, ext) =>
      path.join(directory, `${filename}${ext}`)] *)
Definition createFilePath (directory filename ext : string) : string :=
  path_join directory (filename +:+ ext).

(** *** requestRemoteNode (lines 135-161)

    [createWriteStream] opens the temp file, the response is piped into
    it, and the promise settles on the first of: `error` on the response
    stream (the temp file is removed, then reject), `error` on the write
    stream (reject), `finish` on the write stream after `response`
    (resolve with the response). *)
Definition requestRemoteNode (u : string) (h : Headers) (tmpFilename : string)
    (ev : request_event) : Async Eff Response :=
  await! _ := modify (log (EvRequest u h tmpFilename)) in
  match ev with
  | ResponseStreamError e =>
      await! _ := modify (on_disk (fs_remove tmpFilename)) in
      reject e
  | WriteStreamError e written =>
      await! _ := modify (on_disk (fun d =>
                    match written with
                    | Some b => <[tmpFilename := File b]> d
                    | None => d
                    end)) in
      reject e
  | ResponseFinished r body =>
      await! _ := modify (on_disk (<[tmpFilename := File body]>)) in
      resolve r
  end.

(** *** The steps of processRemoteNode *)

(** [store.getState().program.directory] *)
Definition store_directory (s : store_arg) : Async Eff string :=
  match s with
  | ReduxStore d => resolve d
  | NotAStore _ => reject "TypeError: store.getState is not a function"
  end.

Definition ensureDir (w : World) (p : string) : Async Eff unit :=
  await! _ := fail_if (ensureDir_fails w) in
  modify (on_disk (fs_ensureDir (path_ancestors p) p)).

Definition cache_get (c : cache_arg) (w : World) (key : string)
  : Async Eff (option (gmap string string)) :=
  match c with
  | NotACache _ => reject "TypeError: cache.get is not a function"
  | GatsbyCache =>
      await! _ := fail_if (cache_get_fails w) in
      inspect (fun e => header_cache e !! key)
  end.

Definition cache_set (c : cache_arg) (w : World) (key : string)
    (v : gmap string string) : Async Eff unit :=
  match c with
  | NotACache _ => reject "TypeError: cache.set is not a function"
  | GatsbyCache =>
      await! _ := fail_if (cache_set_fails w) in
      modify (on_cache (<[key := v]>))
  end.

(** Lines 206-208: [if (!ext) { ext = getRemoteFileExtension(url) }]. *)
Definition initial_ext (e : option string) (u : string) : string :=
  match e with
  | Some x => if String.eqb x "" then getRemoteFileExtension u else x
  | None => getRemoteFileExtension u
  end.

(** Lines 221-224: the extension of the recognised signature, if any. *)
Definition guess_ext (e : string) (buffer : bytes) : string :=
  match fileType buffer with
  | Some ft => "." +:+ ft
  | None => e
  end.

(** Lines 219-225: the sniff of the temp file, only when [ext === ``]. *)
Definition sniff_ext (tmpFilename e : string) : Async Eff string :=
  if String.eqb e "" then
    await! _ := modify (log (EvReadChunk tmpFilename)) in
    await! buffer := (fun eff : Eff =>
                       match readChunk_sync tmpFilename fileType_minimumBytes
                               (disk eff) with
                       | Some b => (eff, inl b)
                       | None => (eff, inr "ENOENT: no such file")
                       end) in
    resolve (guess_ext e buffer)
  else resolve e.

Definition move (w : World) (src dest : string) : Async Eff unit :=
  await! _ := fail_if (fs_op_fails w) in
  fun eff =>
    match fs_move src dest (path_ancestors dest) (disk eff) with
    | Some d => (on_disk (fun _ => d) eff, inl tt)
    | None => (eff, inr "ENOENT: no such file")
    end.

Definition remove (w : World) (p : string) : Async Eff unit :=
  await! _ := fail_if (fs_op_fails w) in
  modify (on_disk (fs_remove p)).

Definition createFileNode_call (filename : string) : Async Eff FileNode :=
  fun eff =>
    match createFileNode (disk eff) filename with
    | Some n => (eff, inl n)
    | None => (eff, inr "createFileNode failed")
    end.

Definition createNode_call (w : World) (n : FileNode) : Async Eff unit :=
  await! _ := fail_if (createNode_throws w) in
  modify (register n OWNER).

Definition description (u : string) : string :=
  "File " +:+ dquote +:+ u +:+ dquote.

(** The temp and the permanent file name of a task (lines 181-185, 204-210,
    227-231). *)
Definition pluginCacheDir_of (directory : string) : string :=
  path_join (path_join directory CACHE_DIR) FS_PLUGIN_DIR.

Definition tmpFilename_of (directory u e : string) : string :=
  createFilePath (pluginCacheDir_of directory) ("tmp-" +:+ createHash u) e.

Definition filename_of (directory u e : string) : string :=
  createFilePath (path_join (pluginCacheDir_of directory) (createHash u))
                 (getRemoteFileName u) e.

(** *** processRemoteNode (lines 171-254) *)
Definition processRemoteNode (t : Task) (w : World)
  : Async Eff (option FileNode) :=
  let u := task_url t in
  await! directory := store_directory (task_store t) in
  await! _ := ensureDir w (pluginCacheDir_of directory) in
  await! cachedHeaders := cache_get (task_cache t) w (cacheId u) in
  let hdrs := build_headers (task_auth t) cachedHeaders in
  let e := initial_ext (task_ext t) u in
  let tmpFilename := tmpFilename_of directory u e in
  try_catch
    (await! response := requestRemoteNode u hdrs tmpFilename (request w) in
     await! _ := cache_set (task_cache t) w (cacheId u) (headers response) in
     await! e := sniff_ext tmpFilename e in
     let filename := filename_of directory u e in
     await! _ := (if Z.eqb (statusCode response) 200%Z
                  then move w tmpFilename filename
                  else remove w tmpFilename) in
     await! fileNode := createFileNode_call filename in
     let fileNode := set_description fileNode (description u) in
     await! _ := createNode_call w fileNode in
     resolve (Some fileNode))
    (fun _ => resolve None).

(** The extension [ext] holds at line 227 when the download wrote [body]
    to the temp file. *)
Definition resolved_ext (t : Task) (body : bytes) : string :=
  let e := initial_ext (task_ext t) (task_url t) in
  if String.eqb e "" then guess_ext e (take fileType_minimumBytes body) else e.

(** The calls that one run adds to the trace. *)
Definition new_events (t : Task) (w : World) (eff : Eff) : list event :=
  drop (length (trace eff)) (trace (processRemoteNode t w eff).1).

(** *** pushToQueue (lines 112-119): the arguments it hands to [cb]. *)
Definition pushToQueue (t : Task) (w : World) (eff : Eff)
  : Eff * (option error * Value) :=
  match processRemoteNode t w eff with
  | (eff', inl (Some node)) => (eff', (None, VNode node))
  | (eff', inl None) => (eff', (None, VNull))
  | (eff', inr e) => (eff', (None, VError e))
  end.

(** ** The process-wide state *)

(** A queue entry: the task kept for an id and the promises of the
    [pushTask] calls whose tickets listen to it. *)
Definition Entry : Type := Task * list handle.

Record State := mkState {
  processingCache : gmap string handle;  (* own properties of the object *)
  promises : gmap handle Value;          (* settled promises; absent = pending *)
  next_handle : handle;
  waiting : list Entry;                  (* admitted, not started; oldest first *)
  running : list Entry;                  (* inside [pushToQueue] *)
  effects : Eff;
}.

(** A fresh process: the disk and the Gatsby cache outlive it, the rest
    starts empty. *)
Definition init (d : gmap string fsentry)
    (hc : gmap string (gmap string string)) : State :=
  mkState ∅ ∅ 0 [] [] (mkEffects d hc [] []).

(** *** Property lookup on [processingCache]

    The object is the literal [{}], so [processingCache[key]] answers with
    the own property, else with the member of [Object.prototype] of that
    name, else [undefined]. *)
Inductive property :=
| OwnPromise (h : handle)
| Inherited (key : string)
| NoProperty.

Definition processingCache_get (pc : gmap string handle) (key : string)
  : property :=
  match pc !! key with
  | Some h => OwnPromise h
  | None => if inherited key then Inherited key else NoProperty
  end.

(** *** The queue

    [new Queue(pushToQueue, { id: `url`, merge: (old, _, cb) => cb(old),
    concurrent: 200 })]. *)

Definition has_id (u : string) (e : Entry) : bool := String.eqb (task_url e.1) u.

(** [merge]: the old task is kept; the new ticket listens to it. *)
Definition merge (old : Entry) (h : handle) : Entry := (old.1, old.2 ++ [h]).

Fixpoint merge_into (u : string) (h : handle) (q : list Entry)
  : option (list Entry) :=
  match q with
  | [] => None
  | e :: q' =>
      if has_id u e then Some (merge e h :: q')
      else option_map (cons e) (merge_into u h q')
  end.

(** Modelled from the spec: the scheduler of the better-queue package is
    not part of the sources. Tasks are admitted at the tail of the waiting
    line; a task whose id matches one already admitted (queued or
    executing) is folded into it; a worker starts on the oldest waiting
    task as long as fewer than [concurrent] are executing. *)
Definition queue_push (t : Task) (h : handle) (s : State) : State :=
  match merge_into (task_url t) h (waiting s) with
  | Some w' =>
      mkState (processingCache s) (promises s) (next_handle s) w' (running s)
              (effects s)
  | None =>
      match merge_into (task_url t) h (running s) with
      | Some r' =>
          mkState (processingCache s) (promises s) (next_handle s) (waiting s)
                  r' (effects s)
      | None =>
          mkState (processingCache s) (promises s) (next_handle s)
                  (waiting s ++ [(t, [h])]) (running s) (effects s)
      end
  end.

(** Modelled from the spec: see [queue_push]. *)
Definition queue_start (s : State) : State :=
  match waiting s with
  | e :: w' =>
      if decide (length (running s) < concurrent)
      then mkState (processingCache s) (promises s) (next_handle s) w'
                   (running s ++ [e]) (effects s)
      else s
  | [] => s
  end.

(** The first executing entry of a given id, and the others. *)
Fixpoint take_entry (u : string) (q : list Entry)
  : option (Entry * list Entry) :=
  match q with
  | [] => None
  | e :: q' =>
      if has_id u e then Some (e, q')
      else match take_entry u q' with
           | Some (x, r) => Some (x, e :: r)
           | None => None
           end
  end.

(** A promise settles once. *)
Definition settle (v : Value) (h : handle) (m : gmap handle Value)
  : gmap handle Value :=
  match m !! h with
  | None => <[h := v]> m
  | Some _ => m
  end.

(** The handlers of [pushTask] (lines 273-278): `finish` resolves with the
    result, `failed` resolves with [undefined]; [reject] is never called. *)
Definition ticket_value (cb_args : option error * Value) : Value :=
  match cb_args with
  | (None, result) => result
  | (Some _, _) => VUndefined
  end.

(** A worker runs [pushToQueue] on an executing task and calls back. The
    effects of the run are applied when it finishes; until then the task
    only occupies one of the [concurrent] slots. *)
Definition queue_finish (u : string) (w : World) (s : State) : State :=
  match take_entry u (running s) with
  | None => s
  | Some ((t, hs), r') =>
      let '(eff', cb_args) := pushToQueue t w (effects s) in
      mkState (processingCache s)
              (foldr (settle (ticket_value cb_args)) (promises s) hs)
              (next_handle s) (waiting s) r' eff'
  end.

(** *** pushTask (lines 269-279) *)
Definition pushTask (t : Task) (s : State) : handle * State :=
  let h := next_handle s in
  let s1 := mkState (processingCache s) (promises s) (S h) (waiting s)
                    (running s) (effects s) in
  (h, queue_push t h s1).

(** *** The entry point (lines 296-344) *)

(** What the call hands back: a promise of the table, the fresh promise of
    [Promise.resolve()] (fulfilled with [undefined]), or the member of
    [Object.prototype] that the lookup found. *)
Inductive returned :=
| RPromise (h : handle)
| RResolved
| RInherited (key : string).

Inductive submitted :=
| Throws (message : string)
| Returns (r : returned).

Definition createRemoteFileNode (p : CreateRemoteFileNodePayload) (s : State)
  : submitted * State :=
  if negb (is_function (createNodeId p)) then
    (Throws ("createNodeId must be a function, was "
             +:+ type_name (createNodeId p)), s)
  else if negb (is_function (createNode p)) then
    (Throws ("createNode must be a function, was "
             +:+ type_name (createNode p)), s)
  else if negb (is_object (typeof_store (store p))) then
    (Throws ("store must be the redux store, was "
             +:+ type_name (typeof_store (store p))), s)
  else if negb (is_object (typeof_cache (cache p))) then
    (Throws ("cache must be the Gatsby cache, was "
             +:+ type_name (typeof_cache (cache p))), s)
  else
    match processingCache_get (processingCache s) (template (url p)) with
    | OwnPromise h => (Returns (RPromise h), s)
    | Inherited k => (Returns (RInherited k), s)
    | NoProperty =>
        match url p with
        | SStr u =>
            if String.eqb u "" then (Returns RResolved, s)
            else
              match isWebUri u with
              | None => (Returns RResolved, s)
              | Some _ =>
                  let '(h, s') :=
                    pushTask (mkTask u (store p) (cache p) (auth p) (ext p)) s in
                  (Returns (RPromise h),
                   mkState (<[u := h]> (processingCache s')) (promises s')
                           (next_handle s') (waiting s') (running s')
                           (effects s'))
              end
        | _ => (Returns RResolved, s)
        end
    end.

(** The four [typeof] checks of lines 308-321 all pass. *)
Definition well_configured (p : CreateRemoteFileNodePayload) : bool :=
  is_function (createNodeId p) && is_function (createNode p)
  && is_object (typeof_store (store p)) && is_object (typeof_cache (cache p)).

(** Several calls in a row, none of which awaits another. *)
Fixpoint call_all (ps : list CreateRemoteFileNodePayload) (s : State)
  : list submitted * State :=
  match ps with
  | [] => ([], s)
  | p :: ps' =>
      let '(r, s1) := createRemoteFileNode p s in
      let '(rs, s2) := call_all ps' s1 in
      (r :: rs, s2)
  end.

(** ** Runs of the system *)

Inductive action :=
| Submit (p : CreateRemoteFileNodePayload)
| Start
| Finish (u : string) (w : World).

Definition step (s : State) (a : action) : State :=
  match a with
  | Submit p => (createRemoteFileNode p s).2
  | Start => queue_start s
  | Finish u w => queue_finish u w s
  end.

Definition run (acts : list action) (s : State) : State :=
  fold_left step acts s.

(** What a promise has settled with so far. *)
Definition settled (h : handle) (s : State) : option Value := promises s !! h.

(** How often the download of a url was started. *)
Definition is_request (u : string) (ev : event) : bool :=
  match ev with
  | EvRequest u' _ _ => String.eqb u' u
  | EvReadChunk _ => false
  end.

Definition count_requests (u : string) (evs : list event) : nat :=
  length (filter (fun ev => is_request u ev = true) evs).

Definition fetches (u : string) (s : State) : nat :=
  count_requests u (trace (effects s)).

(** How many tasks of an id the queue holds. *)
Definition count_id (u : string) (q : list Entry) : nat :=
  length (filter (fun e => has_id u e = true) q).

Definition queued (u : string) (s : State) : nat :=
  count_id u (waiting s ++ running s).

Definition ids (q : list Entry) : list string := map (fun e => task_url e.1) q.

(** ** Predicates used in the statements *)

(** The disk once [ensureDir] has made a directory and those above it. *)
Definition ensured (p : string) (d : gmap string fsentry)
  : gmap string fsentry :=
  fs_ensureDir (path_ancestors p) p d.

(** A run whose download finishes and whose collaborators do not fail. *)
Record finishes (t : Task) (w : World) (directory : string)
    (r : Response) (body : bytes) : Prop := {
  fin_store : task_store t = ReduxStore directory;
  fin_cache : task_cache t = GatsbyCache;
  fin_ensureDir : ensureDir_fails w = None;
  fin_cache_get : cache_get_fails w = None;
  fin_request : request w = ResponseFinished r body;
  fin_cache_set : cache_set_fails w = None;
  fin_fs_op : fs_op_fails w = None;
}.

(** A run that gets as far as the download. *)
Record attempts (t : Task) (w : World) (directory : string) : Prop := {
  att_store : task_store t = ReduxStore directory;
  att_cache : task_cache t = GatsbyCache;
  att_ensureDir : ensureDir_fails w = None;
  att_cache_get : cache_get_fails w = None;
}.

(** The error of a failed download. *)
Definition stream_error (ev : request_event) : option error :=
  match ev with
  | ResponseStreamError e => Some e
  | WriteStreamError e _ => Some e
  | ResponseFinished _ _ => None
  end.


(** What a failed download leaves on disk. *)
Definition disk_after_failure (tmp : string) (ev : request_event)
    (d : gmap string fsentry) : gmap string fsentry :=
  match ev with
  | ResponseStreamError _ => delete tmp d
  | WriteStreamError _ (Some b) => <[tmp := File b]> d
  | _ => d
  end.

(** A url that the guard of line 329 turns down. *)
Definition invalid_url (v : strval) : Prop :=
  match v with
  | SStr u => u = "" ∨ isWebUri u = None
  | _ => True
  end.

(** What holds in every state the system can reach. *)
Record Inv (s : State) : Prop := {
  (* each task in the queue has exactly one ticket, the pending promise
     that [processingCache] stores under its url *)
  inv_entry : ∀ e, e ∈ waiting s ++ running s →
    ∃ h, e.2 = [h] ∧ processingCache s !! task_url e.1 = Some h
         ∧ promises s !! h = None;
  inv_valid : ∀ u h, processingCache s !! u = Some h →
    u ≠ "" ∧ is_Some (isWebUri u) ∧ inherited u = false;
  inv_handles : ∀ u h, processingCache s !! u = Some h → h < next_handle s;
  inv_settled : ∀ h v, promises s !! h = Some v → h < next_handle s;
  inv_inj : ∀ u u' h, processingCache s !! u = Some h →
    processingCache s !! u' = Some h → u = u';
  (* per url: downloads started so far plus tasks still in the queue *)
  inv_once : ∀ u, fetches u s + queued u s ≤ 1;
  inv_absent : ∀ u, processingCache s !! u = None →
    fetches u s = 0 ∧ queued u s = 0;
  inv_ceiling : length (running s) ≤ concurrent;
}.

(** The state after a call has queued a new task for [u]. *)
Definition pushed (p : CreateRemoteFileNodePayload) (u : string) (s : State)
  : State :=
  mkState (<[u := next_handle s]> (processingCache s)) (promises s)
          (S (next_handle s))
          (waiting s ++ [(mkTask u (store p) (cache p) (auth p) (ext p),
                          [next_handle s])])
          (running s) (effects s).

(** Every promise of the dedup table that is still pending has its task
    in the queue. *)
Definition Pending_queued (s : State) : Prop :=
  ∀ u h, processingCache s !! u = Some h → promises s !! h = None →
         1 ≤ queued u s.

End Pipeline.

(** ** A concrete set of collaborators

    Simple stand-ins used to run the pipeline on examples. *)

Module Demo.

Record node := mkNode {
  absolutePath : string;
  size : nat;
  internal_description : string;
}.

Definition web_uri (u : string) : option string :=
  if String.prefix "http://" u || String.prefix "https://" u
  then Some u else None.

(** The part of a name after its last [sep], and the part before. *)
Fixpoint split_last (sep : Ascii.ascii) (s : string) : option (string * string) :=
  match s with
  | EmptyString => None
  | String c s' =>
      match split_last sep s' with
      | Some (before, after) => Some (String c before, after)
      | None => if Ascii.eqb c sep then Some (EmptyString, s') else None
      end
  end.

Definition basename (u : string) : string :=
  match split_last "/"%char u with
  | Some (_, b) => b
  | None => u
  end.

Definition file_name (u : string) : string :=
  match split_last "."%char (basename u) with
  | Some (n, _) => n
  | None => basename u
  end.

Definition file_extension (u : string) : string :=
  match split_last "."%char (basename u) with
  | Some (_, e) => "." +:+ e
  | None => ""
  end.

Definition join (a b : string) : string := a +:+ "/" +:+ b.

(** The prefixes of a path that end before a separator, the empty one
    left out. *)
Fixpoint dirs_above (seen rest : string) : list string :=
  match rest with
  | EmptyString => []
  | String c rest' =>
      (if Ascii.eqb c "/"%char && negb (String.eqb seen "") then [seen] else [])
      ++ dirs_above (seen +:+ String c EmptyString) rest'
  end.

Definition ancestors (p : string) : list string := dirs_above "" p.

(** A stand-in for the digest: like the hex digest it is one path
    segment, with no separator in it. *)
Fixpoint flatten (u : string) : string :=
  match u with
  | EmptyString => EmptyString
  | String c u' =>
      String (if Ascii.eqb c "/"%char then "_"%char else c) (flatten u')
  end.

Definition digest (u : string) : string := "md5-" +:+ flatten u.

Definition signature (b : bytes) : option string :=
  match b with
  | Byte.x47 :: Byte.x49 :: Byte.x46 :: _ => Some "gif"
  | Byte.x89 :: Byte.x50 :: Byte.x4e :: Byte.x47 :: _ => Some "png"
  | _ => None
  end.

Definition stat_node (d : gmap string fsentry) (p : string) : option node :=
  match d !! p with
  | Some (File c) => Some (mkNode p (length c) "")
  | _ => None
  end.

Definition describe (n : node) (text : string) : node :=
  mkNode (absolutePath n) (size n) text.

Definition collaborators : Collaborators := {|
  FileNode := node;
  isWebUri := web_uri;
  md5_hex := digest;
  getRemoteFileName := file_name;
  getRemoteFileExtension := file_extension;
  path_join := join;
  path_ancestors := ancestors;
  fileType := signature;
  fileType_minimumBytes := 4100;
  createFileNode := stat_node;
  set_description := describe;
|}.

Definition payload (u : strval) (x : option string) : CreateRemoteFileNodePayload :=
  mkPayload u (ReduxStore "/site") GatsbyCache TyFunction (Some empty_auth)
            TyFunction x.

Definition quiet (ev : request_event) : World :=
  mkWorld None None ev None None None.

Definition gif : bytes := [Byte.x47; Byte.x49; Byte.x46; Byte.x38].

Definition ok200 (body : bytes) : request_event :=
  ResponseFinished (mkResponse 200 {[ "etag" := "v1" ]}) body.

Definition task (u : string) (a : option Auth) (x : option string) : Task :=
  mkTask u (ReduxStore "/site") GatsbyCache a x.

Definition jpg : string := "http://a.org/x.jpg".

Definition boot : @State collaborators := @init collaborators ∅ ∅.

(** The plugin directory and the temp and final files of [jpg]. *)
Definition plugin_dir : string := "/site/.cache/gatsby-source-filesystem".
Definition final_png : string :=
  "/site/.cache/gatsby-source-filesystem/md5-http:__a.org_x.jpg/x.png".
Definition tmp_jpg : string :=
  "/site/.cache/gatsby-source-filesystem/tmp-md5-http:__a.org_x.jpg.jpg".
Definition final_jpg : string :=
  "/site/.cache/gatsby-source-filesystem/md5-http:__a.org_x.jpg/x.jpg".

(** A disk and a header cache left by an earlier, successful fetch of
    [jpg]. *)
Definition old_disk : gmap string fsentry :=
  {[ plugin_dir := Dir; final_jpg := File gif ]}.
Definition old_headers : gmap string string :=
  {[ "etag" := "v1"; "content-type" := "image/gif" ]}.
Definition old_cache : gmap string (gmap string string) :=
  {[ cacheId jpg := old_headers ]}.
Definition old_effects : Effects (@FileNode collaborators) :=
  mkEffects old_disk old_cache [] [].

(** The answer to a conditional request: 304, no body, and of the headers
    only the entity tag. *)
Definition r304 : Response := mkResponse 304 {[ "etag" := "v1" ]}.
Definition revalidated : request_event := ResponseFinished r304 [].

(** A second url, a path outside the plugin cache directory, and further
    answers of the collaborators. *)
Definition png : string := "http://b.org/y.png".

(** A url whose path has no extension, with its temp file and the final
    file of a GIF fetched from it. *)
Definition bare : string := "http://a.org/logo".
Definition tmp_bare : string :=
  "/site/.cache/gatsby-source-filesystem/tmp-md5-http:__a.org_logo".
Definition final_bare_gif : string :=
  "/site/.cache/gatsby-source-filesystem/md5-http:__a.org_logo/logo.gif".
Definition blank : Effects (@FileNode collaborators) := mkEffects ∅ ∅ [] [].
Definition cache_down (ev : request_event) : World :=
  mkWorld None None ev (Some "EIO") None None.
Definition move_fails (ev : request_event) : World :=
  mkWorld None None ev None (Some "EXDEV") None.
Definition no_content : Response := mkResponse 204 ∅.
Definition r200 : Response := mkResponse 200 {[ "etag" := "v1" ]}.

End Demo.

(** * Properties *)

Section Properties.

Context {C : Collaborators}.

Abbreviation Eff := (Effects FileNode).
Abbreviation Value := (value FileNode).

(** ** Unfolding one run of [processRemoteNode] *)

Ltac unfold_async :=
  unfold processRemoteNode, requestRemoteNode, store_directory, ensureDir,
    cache_get, cache_set, sniff_ext, move, remove, createFileNode_call,
    createNode_call, try_catch, await, modify, inspect, fail_if, resolve,
    reject in *.

(** A run only appends to the trace, at most one download and, after it,
    at most one read of the temp file. *)
Lemma processRemoteNode_trace (t : Task) (w : World) (eff : Eff) :
  ∃ evs,
    trace (processRemoteNode t w eff).1 = trace eff ++ evs ∧
    (evs = [] ∨
     ∃ h tmp, evs = [EvRequest (task_url t) h tmp]
              ∨ evs = [EvRequest (task_url t) h tmp; EvReadChunk tmp]) ∧
    ∀ u h tmp, EvRequest u h tmp ∈ evs →
      u = task_url t ∧ hdr_auth h = auth_header (task_auth t).
Proof.
  unfold_async. cbn.
  repeat (case_match; simplify_eq/=).
  all: try (exists []; rewrite app_nil_r; split; [done|split; [by left|set_solver]]).
  all: rewrite <- ?app_assoc; simpl; eexists; (split; [reflexivity|]);
    (split; [right; do 2 eexists; eauto|]);
    intros u h tmp; rewrite ?elem_of_cons, elem_of_nil; intros Hin;
    decompose [or False] Hin; simplify_eq; done.
Qed.

Lemma new_events_spec (t : Task) (w : World) (eff : Eff) :
  trace (processRemoteNode t w eff).1 = trace eff ++ new_events t w eff.
Proof.
  unfold new_events.
  destruct (processRemoteNode_trace t w eff) as (evs & -> & _).
  by rewrite drop_app_length.
Qed.

Lemma new_events_request (t : Task) (w : World) (eff : Eff) u h tmp :
  EvRequest u h tmp ∈ new_events t w eff →
  u = task_url t ∧ hdr_auth h = auth_header (task_auth t).
Proof.
  unfold new_events.
  destruct (processRemoteNode_trace t w eff) as (evs & -> & _ & Hreq).
  rewrite drop_app_length. apply Hreq.
Qed.

Lemma finished_run (t : Task) (w : World) (eff : Eff) directory r body :
  finishes t w directory r body →
  let u := task_url t in
  let tmp := tmpFilename_of directory u (initial_ext (task_ext t) u) in
  let filename := filename_of directory u (resolved_ext t body) in
  let d1 := <[tmp := File body]>
              (ensured (pluginCacheDir_of directory) (disk eff)) in
  let eff' := (processRemoteNode t w eff).1 in
  disk eff' = (if Z.eqb (statusCode r) 200
               then <[filename := File body]>
                      (delete tmp (fs_mkdirs (path_ancestors filename) d1))
               else delete tmp d1) ∧
  header_cache eff' = <[cacheId u := headers r]> (header_cache eff) ∧
  new_events t w eff =
    EvRequest u (build_headers (task_auth t) (header_cache eff !! cacheId u)) tmp
    :: (if String.eqb (initial_ext (task_ext t) u) ""
        then [EvReadChunk tmp] else []).
Proof.
  intros [] u tmp filename d1 eff'.
  subst eff'. unfold new_events, resolved_ext in *. subst filename d1 tmp u.
  unfold_async. cbn.
  rewrite fin_store0, fin_ensureDir0, fin_cache0, fin_cache_get0, fin_request0,
    fin_cache_set0, fin_fs_op0.
  cbn. unfold readChunk_sync, fs_move. cbn.
  destruct (String.eqb (initial_ext (task_ext t) (task_url t)) "") eqn:Hext; cbn;
    rewrite ?lookup_insert_eq; cbn; rewrite ?lookup_insert_eq;
    destruct (statusCode r =? 200)%Z eqn:Hst; cbn; rewrite ?lookup_insert_eq; cbn.
  all: destruct (createFileNode _ _); cbn;
    destruct (createNode_throws w); cbn;
    rewrite <- ?app_assoc, drop_app_length; done.
Qed.

Lemma failed_run (t : Task) (w : World) (eff : Eff) directory :
  attempts t w directory →
  is_Some (stream_error (request w)) →
  let u := task_url t in
  let tmp := tmpFilename_of directory u (initial_ext (task_ext t) u) in
  processRemoteNode t w eff =
    (mkEffects
       (disk_after_failure tmp (request w)
          (ensured (pluginCacheDir_of directory) (disk eff)))
       (header_cache eff) (nodes eff)
       (trace eff ++
        [EvRequest u (build_headers (task_auth t)
                        (header_cache eff !! cacheId u)) tmp]),
     inl None).
Proof.
  intros [] [e He] u tmp. subst u tmp.
  unfold_async. cbn.
  rewrite att_store0, att_ensureDir0, att_cache0, att_cache_get0. cbn.
  destruct (request w) as [e'|e' [b|]|]; try done.
Qed.

Lemma fs_mkdir_lookup (p q : string) (d : gmap string fsentry) e :
  d !! q = Some e → fs_mkdir p d !! q = Some e.
Proof.
  intros Hq. unfold fs_mkdir. destruct (d !! p) eqn:Hp; [done|].
  rewrite lookup_insert_ne; [done|]. intros ->. congruence.
Qed.

Lemma fs_mkdirs_lookup (dirs : list string) (q : string)
    (d : gmap string fsentry) e :
  d !! q = Some e → fs_mkdirs dirs d !! q = Some e.
Proof.
  revert d. induction dirs as [|p dirs IH]; intros d Hq; [done|].
  cbn. by apply IH, fs_mkdir_lookup.
Qed.

Lemma fs_mkdirs_lookup_ne (dirs : list string) (q : string)
    (d : gmap string fsentry) :
  q ∉ dirs → fs_mkdirs dirs d !! q = d !! q.
Proof.
  revert d. induction dirs as [|p dirs IH]; intros d Hq; [done|].
  apply not_elem_of_cons in Hq as [Hne Hq]. cbn. rewrite IH by done.
  unfold fs_mkdir. destruct (d !! p); [done|]. by rewrite lookup_insert_ne.
Qed.

Lemma fs_mkdirs_made (dirs : list string) (p : string)
    (d : gmap string fsentry) :
  p ∈ dirs → is_Some (fs_mkdirs dirs d !! p).
Proof.
  revert d. induction dirs as [|p0 dirs IH]; intros d Hp.
  - by apply elem_of_nil in Hp.
  - cbn. apply elem_of_cons in Hp as [->|Hp]; [|by apply IH].
    assert (Hmade : is_Some (fs_mkdir p0 d !! p0)).
    { unfold fs_mkdir. destruct (d !! p0) eqn:H0; [by rewrite H0|].
      by rewrite lookup_insert_eq. }
    destruct Hmade as [e He]. exists e. by apply fs_mkdirs_lookup.
Qed.

Lemma ensured_lookup (p q : string) (d : gmap string fsentry) e :
  d !! q = Some e → ensured p d !! q = Some e.
Proof. apply fs_mkdirs_lookup. Qed.

Lemma ensured_lookup_ne (p q : string) (d : gmap string fsentry) :
  q ≠ p → q ∉ path_ancestors p → ensured p d !! q = d !! q.
Proof.
  intros Hne Hq. apply fs_mkdirs_lookup_ne.
  rewrite elem_of_app, list_elem_of_singleton. tauto.
Qed.

(** ** Header cache *)

(** C3 (amended): after every download that completes with a response,
    the Header Cache entry of the url holds the headers of that response,
    whatever its status: a 304 response overwrites the cached headers just
    as a 200 response does. *)
Theorem headers_saved_after_every_response
    (t : Task) (w : World) (eff : Eff) directory r body :
  finishes t w directory r body →
  header_cache (processRemoteNode t w eff).1 !! cacheId (task_url t)
  = Some (headers r).
Proof.
  intros Hfin.
  destruct (finished_run t w eff directory r body Hfin) as (_ & -> & _).
  apply lookup_insert_eq.
Qed.

(** ** File materialisation *)

(** C5: when the download completes with status 200 the temp file is moved
    to the final path and replaces whatever was there; with status 304 the
    temp file is removed and every other entry of the disk, the file
    materialised earlier at the final path among them, stays as it was.
    The temp path and the final path are taken to be different paths. *)
Theorem materialization
    (t : Task) (w : World) (eff : Eff) directory r body :
  finishes t w directory r body →
  let u := task_url t in
  let tmp := tmpFilename_of directory u (initial_ext (task_ext t) u) in
  let filename := filename_of directory u (resolved_ext t body) in
  let d' := disk (processRemoteNode t w eff).1 in
  (statusCode r = 200%Z →
     d' !! filename = Some (File body) ∧
     (tmp ≠ filename → d' !! tmp = None)) ∧
  (statusCode r = 304%Z →
     d' !! tmp = None ∧
     (tmp ≠ filename →
      ∀ old, disk eff !! filename = Some old → d' !! filename = Some old) ∧
     (∀ q old, q ≠ tmp → disk eff !! q = Some old → d' !! q = Some old)).
Proof.
  intros Hfin u tmp filename d'.
  destruct (finished_run t w eff directory r body Hfin) as (Hd & _ & _).
  fold u tmp filename d' in Hd. split; intros Hst; rewrite Hst in Hd; cbn in Hd.
  - rewrite Hd. split; [apply lookup_insert_eq|].
    intros Hne. rewrite lookup_insert_ne by done. apply lookup_delete_eq.
  - rewrite Hd. split; [apply lookup_delete_eq|].
    assert (Hkeep : ∀ q old, q ≠ tmp → disk eff !! q = Some old →
              delete tmp (<[tmp := File body]>
                (ensured (pluginCacheDir_of directory) (disk eff))) !! q
              = Some old).
    { intros q old Hne Hold.
      rewrite lookup_delete_ne, lookup_insert_ne by done.
      by apply ensured_lookup. }
    split; [|exact Hkeep].
    intros Hne old Hold. by apply Hkeep.
Qed.

(** ** Extension *)

Lemma resolved_ext_explicit (t : Task) (body : bytes) x :
  task_ext t = Some x → x ≠ "" →
  initial_ext (task_ext t) (task_url t) = x ∧ resolved_ext t body = x.
Proof.
  intros Hx Hne%String.eqb_neq. unfold resolved_ext, initial_ext.
  by rewrite Hx, !Hne.
Qed.

Lemma initial_ext_absent (t : Task) :
  task_ext t = None ∨ task_ext t = Some "" →
  initial_ext (task_ext t) (task_url t) = getRemoteFileExtension (task_url t).
Proof. unfold initial_ext. by intros [-> | ->]. Qed.

(** C6: the extension of the materialised file is the caller's when one
    is given; else the one derived from the url; only when that is empty is
    the temp file read, and then the extension is a dot and the name that
    [fileType] gives to the signature of its leading bytes, or stays empty
    when [fileType] knows none. With an explicit extension the file
    therefore carries it whatever the url ends in and whatever the content
    looks like. *)
Theorem extension_fallback_order
    (t : Task) (w : World) (eff : Eff) directory r body :
  finishes t w directory r body →
  statusCode r = 200%Z →
  let u := task_url t in
  let eff' := (processRemoteNode t w eff).1 in
  (∀ x, task_ext t = Some x → x ≠ "" →
     disk eff' !! filename_of directory u x = Some (File body) ∧
     ∀ p, EvReadChunk p ∉ new_events t w eff) ∧
  (task_ext t = None ∨ task_ext t = Some "" →
   getRemoteFileExtension u ≠ "" →
     disk eff' !! filename_of directory u (getRemoteFileExtension u)
       = Some (File body) ∧
     ∀ p, EvReadChunk p ∉ new_events t w eff) ∧
  (task_ext t = None ∨ task_ext t = Some "" →
   getRemoteFileExtension u = "" →
     EvReadChunk (tmpFilename_of directory u "") ∈ new_events t w eff ∧
     (∀ ft, fileType (take fileType_minimumBytes body) = Some ft →
        disk eff' !! filename_of directory u ("." +:+ ft)
        = Some (File body)) ∧
     (fileType (take fileType_minimumBytes body) = None →
        disk eff' !! filename_of directory u "" = Some (File body))).
Proof.
  intros Hfin Hst u eff'.
  destruct (finished_run t w eff directory r body Hfin) as (Hd & _ & Hev).
  fold u eff' in Hd, Hev. rewrite Hst in Hd. cbn in Hd.
  split; [|split].
  - intros x Hx Hne.
    destruct (resolved_ext_explicit t body x Hx Hne) as [Hi Hr].
    fold u in Hi. rewrite Hd, Hev, Hr, Hi.
    apply String.eqb_neq in Hne as ->.
    split; [apply lookup_insert_eq|].
    intros p. rewrite elem_of_cons, elem_of_nil. by intros [?|[]].
  - intros Ha Hne. pose proof (initial_ext_absent t Ha) as Hi. fold u in Hi.
    rewrite Hd, Hev. unfold resolved_ext. fold u. rewrite Hi.
    apply String.eqb_neq in Hne as ->.
    split; [apply lookup_insert_eq|].
    intros p. rewrite elem_of_cons, elem_of_nil. by intros [?|[]].
  - intros Ha He. pose proof (initial_ext_absent t Ha) as Hi. fold u in Hi.
    rewrite Hd, Hev. unfold resolved_ext, guess_ext. fold u. rewrite Hi, He.
    cbn. split; [rewrite !elem_of_cons; by right; left|].
    split.
    + intros ft ->. apply lookup_insert_eq.
    + intros ->. apply lookup_insert_eq.
Qed.

(** ** Request headers *)

Lemma auth_header_none (a : option Auth) :
  auth_header a = None ↔
  a = None ∨ ∃ x, a = Some x ∧ truthy (htaccess_user x) = false
                             ∧ truthy (htaccess_pass x) = false.
Proof.
  unfold auth_header. destruct a as [x|]; [|naive_solver].
  destruct (truthy (htaccess_pass x)) eqn:Hp, (truthy (htaccess_user x)) eqn:Hu;
    simpl; split; try done; try (intros [?|(y & ? & ? & ?)]; simplify_eq; congruence).
  intros _. right. by exists x.
Qed.

(** C10: a request made for a task that supplies only one of
    [htaccess_user] and [htaccess_pass] still carries the [auth] option,
    the missing credential printed as the text "undefined"; the option is
    left out exactly when [auth] is null or neither credential is truthy. *)
Theorem auth_header_with_one_credential
    (t : Task) (w : World) (eff : Eff) (u : string) (h : Headers) (tmp : string) :
  EvRequest u h tmp ∈ new_events t w eff →
  (∀ a, task_auth t = Some a →
        truthy (htaccess_user a) = true → htaccess_pass a = SUndefined →
        hdr_auth h = Some (template (htaccess_user a) +:+ ":undefined")) ∧
  (∀ a, task_auth t = Some a →
        truthy (htaccess_pass a) = true → htaccess_user a = SUndefined →
        hdr_auth h = Some ("undefined:" +:+ template (htaccess_pass a))) ∧
  (hdr_auth h = None ↔
     task_auth t = None ∨
     ∃ a, task_auth t = Some a ∧ truthy (htaccess_user a) = false
                               ∧ truthy (htaccess_pass a) = false).
Proof.
  intros [_ ->]%new_events_request. split; [|split].
  - intros a -> Hu Hp. unfold auth_header. rewrite Hu, Hp, orb_true_r. done.
  - intros a -> Hp Hu. unfold auth_header. rewrite Hu, Hp. done.
  - apply auth_header_none.
Qed.

(** * The front door and the queue *)

Lemma processingCache_get_own (pc : gmap string handle) k h :
  pc !! k = Some h → processingCache_get pc k = OwnPromise h.
Proof. unfold processingCache_get. by intros ->. Qed.

Lemma processingCache_get_none (pc : gmap string handle) k :
  processingCache_get pc k = NoProperty → pc !! k = None ∧ inherited k = false.
Proof.
  unfold processingCache_get. destruct (pc !! k); [done|].
  by destruct (inherited k).
Qed.

Lemma well_configured_checks (p : CreateRemoteFileNodePayload) :
  well_configured p = true →
  is_function (createNodeId p) = true ∧ is_function (createNode p) = true ∧
  is_object (typeof_store (store p)) = true ∧
  is_object (typeof_cache (cache p)) = true.
Proof. unfold well_configured. rewrite !andb_true_iff. tauto. Qed.

Lemma submit_configured (p : CreateRemoteFileNodePayload) (s : State) :
  well_configured p = true →
  createRemoteFileNode p s =
    match processingCache_get (processingCache s) (template (url p)) with
    | OwnPromise h => (Returns (RPromise h), s)
    | Inherited k => (Returns (RInherited k), s)
    | NoProperty =>
        match url p with
        | SStr u =>
            if String.eqb u "" then (Returns RResolved, s)
            else
              match isWebUri u with
              | None => (Returns RResolved, s)
              | Some _ =>
                  let '(h, s') :=
                    pushTask (mkTask u (store p) (cache p) (auth p) (ext p)) s in
                  (Returns (RPromise h),
                   mkState (<[u := h]> (processingCache s')) (promises s')
                           (next_handle s') (waiting s') (running s')
                           (effects s'))
              end
        | _ => (Returns RResolved, s)
        end
    end.
Proof.
  intros (H1 & H2 & H3 & H4)%well_configured_checks.
  unfold createRemoteFileNode. by rewrite H1, H2, H3, H4.
Qed.

Lemma submit_existing_entry (p : CreateRemoteFileNodePayload) (s : State) h :
  well_configured p = true →
  processingCache s !! template (url p) = Some h →
  createRemoteFileNode p s = (Returns (RPromise h), s).
Proof.
  intros Hc Hh. rewrite submit_configured by done.
  by rewrite (processingCache_get_own _ _ _ Hh).
Qed.

(** ** Counting *)

Lemma has_id_true u (e : Entry) : has_id u e = true ↔ task_url e.1 = u.
Proof. unfold has_id. apply String.eqb_eq. Qed.

Lemma count_id_app u (q1 q2 : list Entry) :
  count_id u (q1 ++ q2) = count_id u q1 + count_id u q2.
Proof. unfold count_id. by rewrite filter_app, length_app. Qed.

Lemma count_id_cons u (e : Entry) q :
  count_id u (e :: q) = (if has_id u e then 1 else 0) + count_id u q.
Proof.
  unfold count_id. rewrite filter_cons. destruct (has_id u e) eqn:He.
  - by rewrite decide_True.
  - rewrite decide_False; [done|congruence].
Qed.

Lemma count_id_perm u (q1 q2 : list Entry) :
  q1 ≡ₚ q2 → count_id u q1 = count_id u q2.
Proof. intros Hp. unfold count_id. by rewrite Hp. Qed.

Lemma count_id_elem u (e : Entry) q :
  e ∈ q → has_id u e = true → (1 ≤ count_id u q)%nat.
Proof.
  induction 1 as [|x y q Hin IH]; intros He; rewrite count_id_cons.
  - rewrite He. lia.
  - specialize (IH He). lia.
Qed.

Lemma count_requests_app u (l1 l2 : list event) :
  count_requests u (l1 ++ l2) = count_requests u l1 + count_requests u l2.
Proof. unfold count_requests. by rewrite filter_app, length_app. Qed.

Lemma new_events_count (t : Task) (w : World) (eff : Eff) u :
  (count_requests u (new_events t w eff)
   ≤ (if String.eqb (task_url t) u then 1 else 0))%nat.
Proof.
  unfold new_events.
  destruct (processRemoteNode_trace t w eff) as (evs & -> & Hshape & _).
  rewrite drop_app_length.
  destruct Hshape as [->|(h & tmp & [->| ->])]; unfold count_requests;
    rewrite ?filter_cons, ?filter_nil; cbn;
    destruct (String.eqb (task_url t) u); cbn;
    repeat case_decide; try done; cbn; lia.
Qed.

(** A run that gets as far as the download starts it exactly once. *)
Lemma attempt_requests_once (t : Task) (w : World) (eff : Eff) directory :
  attempts t w directory →
  count_requests (task_url t) (new_events t w eff) = 1.
Proof.
  intros [Hs Hc Hd Hg].
  unfold new_events.
  destruct (processRemoteNode_trace t w eff) as (evs & Htr & Hshape & _).
  rewrite Htr, drop_app_length.
  assert (Hne : evs ≠ []).
  { intros ->. rewrite app_nil_r in Htr. revert Htr.
    unfold_async. cbn. rewrite Hs, Hd, Hc, Hg. cbn.
    repeat (case_match; simplify_eq/=);
      rewrite <- ?app_assoc; intros Heq;
      apply (f_equal length) in Heq; rewrite !length_app in Heq;
      cbn in Heq; lia. }
  destruct Hshape as [->|(h & tmp & [->| ->])]; [done|..];
    unfold count_requests; rewrite ?filter_cons, ?filter_nil; cbn;
    rewrite String.eqb_refl; repeat case_decide; done.
Qed.

(** ** The queue *)

Lemma merge_into_fresh u h (q : list Entry) :
  count_id u q = 0 → merge_into u h q = None.
Proof.
  induction q as [|e q IH]; [done|]. rewrite count_id_cons. simpl.
  destruct (has_id u e); [done|]. simpl. intros Hq. by rewrite IH.
Qed.

Lemma merge_into_ids u h (q q' : list Entry) :
  merge_into u h q = Some q' → ids q' = ids q.
Proof.
  revert q'. induction q as [|e q IH]; intros q'; simpl; [done|].
  destruct (has_id u e).
  - by intros [= <-].
  - destruct (merge_into u h q) eqn:Hm; simpl; [|done].
    intros [= <-]. simpl. f_equal. by apply IH.
Qed.

Lemma take_entry_perm u (q : list Entry) e r :
  take_entry u q = Some (e, r) → has_id u e = true ∧ q ≡ₚ e :: r.
Proof.
  revert e r. induction q as [|x q IH]; intros e r; simpl; [done|].
  destruct (has_id u x) eqn:Hx.
  - by intros [= <- <-].
  - destruct (take_entry u q) as [[y r0]|] eqn:Ht; [|done].
    intros [= <- <-]. destruct (IH _ _ eq_refl) as [? Hp].
    split; [done|]. rewrite Hp. apply Permutation_swap.
Qed.

Lemma pushToQueue_effects (t : Task) (w : World) (eff : Eff) :
  (pushToQueue t w eff).1 = (processRemoteNode t w eff).1.
Proof.
  unfold pushToQueue.
  by destruct (processRemoteNode t w eff) as [eff' [[n|]|e]].
Qed.

(** ** What holds in every state the system can reach *)

Ltac fields :=
  cbn [processingCache promises next_handle waiting running effects] in *.

Lemma Inv_init d hc : Inv (init d hc).
Proof.
  split; cbn; try done.
  - intros e He. by apply elem_of_nil in He.
  - intros u. unfold fetches, queued. cbn. lia.
  - unfold concurrent. lia.
Qed.

Lemma submit_new (p : CreateRemoteFileNodePayload) (s : State) u :
  well_configured p = true → url p = SStr u →
  processingCache_get (processingCache s) u = NoProperty →
  u ≠ "" → is_Some (isWebUri u) → queued u s = 0 →
  createRemoteFileNode p s = (Returns (RPromise (next_handle s)), pushed p u s).
Proof.
  intros Hc Hu Hget Hne [v Hv] Hq.
  rewrite submit_configured by done. rewrite Hu. cbn. rewrite Hget.
  apply String.eqb_neq in Hne as ->. rewrite Hv.
  unfold queued in Hq. rewrite count_id_app in Hq.
  unfold pushTask, queue_push. cbn.
  rewrite !merge_into_fresh by lia. done.
Qed.

Lemma submit_cases (p : CreateRemoteFileNodePayload) (s : State) :
  Inv s →
  (createRemoteFileNode p s).2 = s ∨
  ∃ u, url p = SStr u ∧ well_configured p = true ∧ u ≠ "" ∧
       is_Some (isWebUri u) ∧ processingCache s !! u = None ∧
       inherited u = false ∧
       createRemoteFileNode p s = (Returns (RPromise (next_handle s)), pushed p u s).
Proof.
  intros HI. destruct (well_configured p) eqn:Hc.
  - pose proof (submit_configured p s Hc) as Hs.
    destruct (processingCache_get _ _) eqn:Hget; [left; by rewrite Hs..|].
    destruct (url p) as [| |u] eqn:Hu; [left; by rewrite Hs..|].
    destruct (String.eqb u "") eqn:He; [left; by rewrite Hs|].
    destruct (isWebUri u) eqn:Hw; [|left; by rewrite Hs].
    cbn in Hget. apply processingCache_get_none in Hget as Hno.
    destruct Hno as [Hno Hinh]. apply String.eqb_neq in He.
    right. exists u. repeat split; try done.
    apply submit_new; try done. by apply (inv_absent s HI).
  - left. unfold createRemoteFileNode, well_configured in *.
    destruct (is_function (createNodeId p)); [|done].
    destruct (is_function (createNode p)); [|done].
    destruct (is_object (typeof_store (store p))); [|done].
    destruct (is_object (typeof_cache (cache p))); done.
Qed.

Lemma Inv_pushed (p : CreateRemoteFileNodePayload) (u : string) (s : State) :
  Inv s → u ≠ "" → is_Some (isWebUri u) → inherited u = false →
  processingCache s !! u = None → Inv (pushed p u s).
Proof.
  intros HI Hne Hw Hinh Hno. destruct (inv_absent s HI u Hno) as [Hf Hq].
  assert (Hfresh : promises s !! next_handle s = None).
  { destruct (promises s !! next_handle s) eqn:Hp; [|done].
    apply (inv_settled s HI) in Hp. lia. }
  assert (Hcount : ∀ u', queued u' (pushed p u s)
                         = queued u' s + (if String.eqb u u' then 1 else 0)).
  { intros u'. unfold queued, pushed. cbn [waiting running].
    rewrite !count_id_app, count_id_cons.
    change (count_id u' []) with 0. unfold has_id. cbn [fst task_url]. lia. }
  split.
  - intros e. cbn. rewrite <- app_assoc. cbn.
    rewrite elem_of_app, elem_of_cons. intros He.
    assert (e ∈ waiting s ++ running s ∨
            e = (mkTask u (store p) (cache p) (auth p) (ext p), [next_handle s]))
      as [Hold| ->] by (rewrite elem_of_app; tauto).
    + destruct (inv_entry s HI e Hold) as (h & ? & Hpc & ?).
      exists h. split; [done|]. split; [|done].
      rewrite lookup_insert_ne; [done|]. intros ->. congruence.
    + exists (next_handle s). cbn. by rewrite lookup_insert_eq.
  - intros u' h. cbn. destruct (decide (u = u')) as [<-|Hneq].
    + done.
    + rewrite lookup_insert_ne by done. apply (inv_valid s HI).
  - intros u' h. cbn. destruct (decide (u = u')) as [<-|Hneq].
    + rewrite lookup_insert_eq. intros [= <-]. lia.
    + rewrite lookup_insert_ne by done. intros Hh%(inv_handles s HI). lia.
  - intros h v Hp%(inv_settled s HI). cbn. lia.
  - intros u1 u2 h. cbn.
    destruct (decide (u = u1)) as [<-|Hn1], (decide (u = u2)) as [<-|Hn2];
      rewrite ?lookup_insert_eq, ?lookup_insert_ne by done; try done.
    + intros [= <-] Hh%(inv_handles s HI). lia.
    + intros Hh%(inv_handles s HI) [= <-]. lia.
    + apply (inv_inj s HI).
  - intros u'. rewrite Hcount.
    change (fetches u' (pushed p u s)) with (fetches u' s).
    destruct (String.eqb_spec u u') as [<-|Hneq]; [lia|].
    pose proof (inv_once s HI u'). lia.
  - intros u' Hlook. rewrite Hcount.
    change (fetches u' (pushed p u s)) with (fetches u' s).
    change (processingCache (pushed p u s))
      with (<[u := next_handle s]> (processingCache s)) in Hlook.
    destruct (decide (u = u')) as [<-|Hneq].
    + by rewrite lookup_insert_eq in Hlook.
    + rewrite lookup_insert_ne in Hlook by done.
      destruct (inv_absent s HI u' Hlook) as [Hf' Hq'].
      destruct (String.eqb_spec u u'); [done|]. lia.
  - cbn. apply (inv_ceiling s HI).
Qed.

Lemma Inv_submit (p : CreateRemoteFileNodePayload) (s : State) :
  Inv s → Inv (createRemoteFileNode p s).2.
Proof.
  intros HI. destruct (submit_cases p s HI) as
    [->|(u & _ & _ & Hne & Hw & Hno & Hinh & ->)]; [done|].
  by apply Inv_pushed.
Qed.

Lemma Inv_start (s : State) : Inv s → Inv (queue_start s).
Proof.
  intros HI. unfold queue_start.
  destruct (waiting s) as [|e w'] eqn:Hw; [done|]. case_decide; [|done].
  assert (Hperm : w' ++ (running s ++ [e]) ≡ₚ waiting s ++ running s).
  { rewrite Hw, app_assoc. cbn. by rewrite <- Permutation_cons_append. }
  split; fields; try apply HI.
  - intros e0 He0. rewrite Hperm in He0. by apply (inv_entry s HI).
  - intros u. unfold queued, fetches. fields.
    rewrite (count_id_perm _ _ _ Hperm). apply (inv_once s HI).
  - intros u Hno. unfold queued, fetches. fields.
    rewrite (count_id_perm _ _ _ Hperm). by apply (inv_absent s HI).
  - rewrite length_app. cbn. lia.
Qed.

Lemma Inv_finish (u : string) (w : World) (s : State) :
  Inv s → Inv (queue_finish u w s).
Proof.
  intros HI. unfold queue_finish.
  destruct (take_entry u (running s)) as [[[t hs] r']|] eqn:Ht; [|done].
  destruct (take_entry_perm _ _ _ _ Ht) as [Hid Hperm].
  assert (Hall : waiting s ++ running s ≡ₚ (t, hs) :: (waiting s ++ r')).
  { rewrite Hperm. by rewrite Permutation_middle. }
  assert (Hin : (t, hs) ∈ waiting s ++ running s).
  { rewrite Hall. by left. }
  destruct (inv_entry s HI _ Hin) as (h & Hhs & Hpc & Hpend).
  cbn in Hhs, Hpc. subst hs.
  destruct (pushToQueue t w (effects s)) as [eff' cb] eqn:Hpush.
  assert (Heff : eff' = (processRemoteNode t w (effects s)).1).
  { by rewrite <- pushToQueue_effects, Hpush. }
  cbn [foldr]. unfold settle. rewrite Hpend.
  assert (Hq : ∀ u', queued u' s
                     = (if String.eqb (task_url t) u' then 1 else 0)
                       + count_id u' (waiting s ++ r')).
  { intros u'. unfold queued.
    by rewrite (count_id_perm _ _ _ Hall), count_id_cons. }
  assert (Hf : ∀ u', count_requests u' (trace eff')
                     ≤ fetches u' s
                       + (if String.eqb (task_url t) u' then 1 else 0)).
  { intros u'. rewrite Heff, new_events_spec, count_requests_app.
    pose proof (new_events_count t w (effects s) u'). unfold fetches. lia. }
  split; fields; try apply HI.
  - intros e He.
    assert (He' : e ∈ waiting s ++ running s) by (rewrite Hall; by right).
    destruct (inv_entry s HI e He') as (h' & ? & Hpc' & ?).
    exists h'. split; [done|]. split; [done|].
    rewrite lookup_insert_ne; [done|]. intros <-.
    assert (Hsame : task_url e.1 = task_url t)
      by (eapply (inv_inj s HI); eauto).
    apply has_id_true in Hsame.
    pose proof (count_id_elem _ _ _ He Hsame) as Hc.
    pose proof (Hq (task_url t)) as Hq'. rewrite String.eqb_refl in Hq'.
    pose proof (inv_once s HI (task_url t)). lia.
  - intros h0 v. destruct (decide (h = h0)) as [<-|Hneq].
    + intros _. by apply (inv_handles s HI) in Hpc.
    + rewrite lookup_insert_ne by done. apply (inv_settled s HI).
  - intros u'. unfold fetches, queued. fields.
    pose proof (Hq u'). pose proof (Hf u'). pose proof (inv_once s HI u').
    destruct (String.eqb (task_url t) u'); lia.
  - intros u' Hno. destruct (inv_absent s HI u' Hno) as [Hf' Hq'].
    unfold fetches, queued. fields.
    pose proof (Hq u'). pose proof (Hf u').
    destruct (String.eqb (task_url t) u'); lia.
  - apply Permutation_length in Hperm. cbn in Hperm.
    pose proof (inv_ceiling s HI). lia.
Qed.

Lemma Inv_step (s : State) (a : action) : Inv s → Inv (step s a).
Proof.
  destruct a; cbn; auto using Inv_submit, Inv_start, Inv_finish.
Qed.

Lemma Inv_run (acts : list action) (s : State) : Inv s → Inv (run acts s).
Proof.
  revert s. induction acts as [|a acts IH]; intros s HI; [done|].
  cbn. apply IH. by apply Inv_step.
Qed.

Lemma Inv_reachable (acts : list action) d hc : Inv (run acts (init d hc)).
Proof. apply Inv_run, Inv_init. Qed.

(** ** Deduplication *)

Lemma queue_push_processingCache (t : Task) h (s : State) :
  processingCache (queue_push t h s) = processingCache s.
Proof.
  unfold queue_push.
  destruct (merge_into _ _ (waiting s)); [done|].
  by destruct (merge_into _ _ (running s)).
Qed.

Lemma submit_processingCache (p : CreateRemoteFileNodePayload) (s : State) :
  processingCache (createRemoteFileNode p s).2 = processingCache s ∨
  ∃ u h, processingCache s !! u = None ∧
         processingCache (createRemoteFileNode p s).2 = <[u := h]> (processingCache s).
Proof.
  unfold createRemoteFileNode.
  repeat (case_match; try (by left)); simplify_eq.
  match goal with H : processingCache_get _ _ = NoProperty |- _ =>
    apply processingCache_get_none in H as [Hno _] end.
  match goal with H : pushTask _ _ = _ |- _ =>
    unfold pushTask in H; injection H as <- <- end.
  right. cbn in *. do 2 eexists. split; [done|].
  by rewrite queue_push_processingCache.
Qed.

Lemma submit_returns_promise (p : CreateRemoteFileNodePayload) (s : State) h :
  (createRemoteFileNode p s).1 = Returns (RPromise h) →
  processingCache (createRemoteFileNode p s).2 !! template (url p) = Some h.
Proof.
  unfold createRemoteFileNode.
  intros Heq. repeat case_match; simplify_eq/=.
  - unfold processingCache_get in *. repeat case_match; by simplify_eq.
  - match goal with H : pushTask _ _ = _ |- _ =>
      unfold pushTask in H; injection H as <- <- end.
    apply lookup_insert_eq.
Qed.

Lemma step_keeps_entry (s : State) (a : action) k h :
  processingCache s !! k = Some h → processingCache (step s a) !! k = Some h.
Proof.
  intros Hk. destruct a as [p| |u w]; cbn.
  - destruct (submit_processingCache p s) as [->|(u & h' & Hno & ->)]; [done|].
    rewrite lookup_insert_ne; [done|]. intros ->. congruence.
  - unfold queue_start. by repeat case_match.
  - unfold queue_finish. by repeat case_match.
Qed.

Lemma run_keeps_entry (acts : list action) (s : State) k h :
  processingCache s !! k = Some h → processingCache (run acts s) !! k = Some h.
Proof.
  revert s. induction acts as [|a acts IH]; intros s Hk; [done|].
  cbn. by apply IH, step_keeps_entry.
Qed.

(** C1 (amended): the entry that a call for a url leaves in
    [processingCache] is never removed. Whatever happens afterwards, the
    completion of the fetch included, a later well-configured call for the
    same url gets the stored promise back and changes nothing: no task is
    queued for it. *)
Theorem entry_never_removed (p p' : CreateRemoteFileNodePayload) (s : State)
    (h : handle) (acts : list action) :
  (createRemoteFileNode p s).1 = Returns (RPromise h) →
  url p' = url p →
  well_configured p' = true →
  let s' := run acts (createRemoteFileNode p s).2 in
  processingCache s' !! template (url p) = Some h ∧
  createRemoteFileNode p' s' = (Returns (RPromise h), s').
Proof.
  intros Hret Hurl Hc s'.
  assert (Hk : processingCache s' !! template (url p) = Some h).
  { by apply run_keeps_entry, submit_returns_promise. }
  split; [done|]. apply submit_existing_entry; [done|]. by rewrite Hurl.
Qed.

Lemma submit_all_existing (ps : list CreateRemoteFileNodePayload) (s : State) U h :
  Forall (λ p, url p = SStr U ∧ well_configured p = true) ps →
  processingCache s !! U = Some h →
  call_all ps s = (map (λ _, Returns (RPromise h)) ps, s).
Proof.
  intros Hall Hh. induction Hall as [|p ps [Hu Hc] _ IH]; [done|].
  cbn. rewrite (submit_existing_entry p s h), IH; [done..|].
  by rewrite Hu.
Qed.

Lemma queued_pushed (p : CreateRemoteFileNodePayload) (u u' : string) (s : State) :
  queued u' (pushed p u s)
  = queued u' s + (if String.eqb u u' then 1 else 0).
Proof.
  unfold queued, pushed. cbn [waiting running].
  rewrite !count_id_app, count_id_cons.
  change (count_id u' []) with 0. unfold has_id. cbn [fst task_url]. lia.
Qed.

Lemma queue_push_effects (t : Task) h (s : State) :
  effects (queue_push t h s) = effects s ∧
  promises (queue_push t h s) = promises s.
Proof.
  unfold queue_push.
  destruct (merge_into _ _ (waiting s)); [done|].
  by destruct (merge_into _ _ (running s)).
Qed.

Lemma submit_effects (p : CreateRemoteFileNodePayload) (s : State) :
  effects (createRemoteFileNode p s).2 = effects s ∧
  promises (createRemoteFileNode p s).2 = promises s.
Proof.
  unfold createRemoteFileNode.
  repeat (case_match; try done); simplify_eq.
  match goal with H : pushTask _ _ = _ |- _ =>
    unfold pushTask in H; injection H as <- <- end.
  cbn [snd effects promises].
  match goal with |- context [queue_push ?t ?h ?s1] =>
    destruct (queue_push_effects t h s1) as [-> ->] end.
  done.
Qed.

Lemma foldr_settle_keeps (x : Value) (hs : list handle)
    (m : gmap handle Value) h v :
  m !! h = Some v → foldr (settle x) m hs !! h = Some v.
Proof.
  intros Hm. induction hs as [|h0 hs IH]; [done|]. cbn.
  unfold settle at 1. destruct (foldr (settle x) m hs !! h0) eqn:Hh0; [done|].
  rewrite lookup_insert_ne; [done|]. intros ->. congruence.
Qed.

Lemma step_keeps_settled (s : State) (a : action) h v :
  settled h s = Some v → settled h (step s a) = Some v.
Proof.
  unfold settled. intros Hs. destruct a as [p| |u w]; cbn.
  - by destruct (submit_effects p s) as [_ ->].
  - unfold queue_start. by repeat case_match.
  - unfold queue_finish.
    destruct (take_entry u (running s)) as [[[t hs] r']|]; [|done].
    destruct (pushToQueue t w (effects s)) as [eff' cb]. cbn.
    by apply foldr_settle_keeps.
Qed.

Lemma run_keeps_settled (acts : list action) (s : State) h v :
  settled h s = Some v → settled h (run acts s) = Some v.
Proof.
  revert s. induction acts as [|a acts IH]; intros s Hs; [done|].
  cbn. by apply IH, step_keeps_settled.
Qed.

Lemma step_fetches_mono (s : State) (a : action) u :
  fetches u s ≤ fetches u (step s a).
Proof.
  unfold fetches. destruct a as [p| |u' w]; cbn.
  - by destruct (submit_effects p s) as [-> _].
  - unfold queue_start. by repeat case_match.
  - unfold queue_finish.
    destruct (take_entry u' (running s)) as [[[t hs] r']|]; [|done].
    pose proof (pushToQueue_effects t w (effects s)) as Heff.
    destruct (pushToQueue t w (effects s)) as [eff' cb]. cbn in *.
    rewrite Heff, new_events_spec, count_requests_app. lia.
Qed.

Lemma run_fetches_mono (acts : list action) (s : State) u :
  fetches u s ≤ fetches u (run acts s).
Proof.
  revert s. induction acts as [|a acts IH]; intros s; [done|].
  cbn. etrans; [apply (step_fetches_mono s a)|apply IH].
Qed.

(** When the worker finishes the one task of a url and the run got as far
    as the download, that was the one download of the url, and the promise
    of the url is fulfilled with what [pushToQueue] handed over. *)
Lemma finish_delivers (s : State) (u : string) (w : World)
    (t : Task) (hs : list handle) (r' : list Entry) (h : handle) directory :
  Inv s →
  processingCache s !! u = Some h →
  take_entry u (running s) = Some ((t, hs), r') →
  attempts t w directory →
  let s' := queue_finish u w s in
  hs = [h] ∧ task_url t = u ∧ settled h s = None ∧
  fetches u s = 0 ∧ fetches u s' = 1 ∧ queued u s' = 0 ∧
  settled h s' = Some (pushToQueue t w (effects s)).2.2.
Proof.
  intros HI Hk Ht Hatt s'.
  pose proof (Inv_finish u w s HI) as HI'. fold s' in HI'.
  destruct (take_entry_perm _ _ _ _ Ht) as [Hid Hperm].
  pose proof Hid as Hu. apply has_id_true in Hu. cbn in Hu.
  assert (Hin : (t, hs) ∈ waiting s ++ running s).
  { apply elem_of_app. right. rewrite Hperm. by left. }
  destruct (inv_entry s HI _ Hin) as (h' & Hhs & Hpc & Hpend).
  cbn in Hhs, Hpc. rewrite Hu, Hk in Hpc. injection Hpc as <-. subst hs.
  assert (Hq : 1 ≤ queued u s) by (by apply (count_id_elem u (t, [h]))).
  assert (Hf0 : fetches u s = 0) by (pose proof (inv_once s HI u); lia).
  assert (Hf1 : fetches u s' = 1).
  { subst s'. unfold fetches, queue_finish. rewrite Ht.
    pose proof (pushToQueue_effects t w (effects s)) as Heff.
    destruct (pushToQueue t w (effects s)) as [eff' cb]. cbn in *.
    rewrite Heff, new_events_spec, count_requests_app.
    pose proof (attempt_requests_once t w (effects s) directory Hatt) as H1.
    rewrite Hu in H1. unfold fetches in Hf0. lia. }
  split; [done|]. split; [done|]. split; [done|]. split; [done|].
  split; [done|]. split. { pose proof (inv_once s' HI' u). lia. }
  subst s'. unfold settled, queue_finish. rewrite Ht. unfold pushToQueue.
  destruct (processRemoteNode t w (effects s)) as [eff' [[n|]|e]]; cbn;
    unfold settle; rewrite Hpend; apply lookup_insert_eq.
Qed.

Lemma call_all_new (s : State) (U : string)
    (p : CreateRemoteFileNodePayload) (ps : list CreateRemoteFileNodePayload) :
  Inv s →
  Forall (λ p, url p = SStr U ∧ well_configured p = true) (p :: ps) →
  U ≠ "" → is_Some (isWebUri U) →
  processingCache_get (processingCache s) U = NoProperty →
  call_all (p :: ps) s
  = (map (λ _, Returns (RPromise (next_handle s))) (p :: ps), pushed p U s).
Proof.
  intros HI Hall HU Hw Hget.
  apply Forall_cons in Hall as [[Hu Hc] Hall].
  destruct (processingCache_get_none _ _ Hget) as [Hno Hinh].
  destruct (inv_absent s HI U Hno) as [Hf Hq].
  pose proof (submit_new p s U Hc Hu Hget HU Hw Hq) as Hs.
  cbn [call_all]. rewrite Hs.
  rewrite (submit_all_existing ps _ U (next_handle s)); [done|done|].
  cbn. apply lookup_insert_eq.
Qed.

(** C2: a well-configured call for a url that has an entry in
    [processingCache] returns the stored promise itself and leaves the
    state, the queue included, as it was. Hence any number of calls for a
    new valid url, made in a row, all return one and the same promise, put
    exactly one task for it in the queue, and at no later time has the
    download of that url been started more than once; a task that gets as
    far as the download starts it exactly once. And when, whatever happens
    in between, the worker finishes that task, this is the one download of
    the url, from then on it stays at one, and the promise that all the
    calls share is fulfilled with the one result of that run, for good. *)
Theorem in_flight_dedup :
  (∀ (s : State) (p : CreateRemoteFileNodePayload) (h : handle),
     well_configured p = true →
     processingCache s !! template (url p) = Some h →
     createRemoteFileNode p s = (Returns (RPromise h), s)) ∧
  (∀ (acts : list action) d hc (U : string)
     (ps : list CreateRemoteFileNodePayload),
     let s := run acts (init d hc) in
     ps ≠ [] →
     Forall (λ p, url p = SStr U ∧ well_configured p = true) ps →
     U ≠ "" → is_Some (isWebUri U) →
     processingCache_get (processingCache s) U = NoProperty →
     ∃ h, (call_all ps s).1 = map (λ _, Returns (RPromise h)) ps ∧
          settled h (call_all ps s).2 = None ∧
          queued U (call_all ps s).2 = 1 ∧
          fetches U (call_all ps s).2 = 0 ∧
          ∀ acts', let s' := run acts' (call_all ps s).2 in
                   fetches U s' + queued U s' ≤ 1) ∧
  (∀ (t : Task) (w : World) (eff : Eff) directory,
     attempts t w directory →
     count_requests (task_url t) (new_events t w eff) = 1) ∧
  (∀ (acts : list action) d hc (U : string)
     (ps : list CreateRemoteFileNodePayload) (h : handle)
     (acts' : list action) (w : World) (t : Task) (hs : list handle)
     (r' : list Entry) directory,
     let s := run acts (init d hc) in
     ps ≠ [] →
     Forall (λ p, url p = SStr U ∧ well_configured p = true) ps →
     U ≠ "" → is_Some (isWebUri U) →
     processingCache_get (processingCache s) U = NoProperty →
     (call_all ps s).1 = map (λ _, Returns (RPromise h)) ps →
     let s2 := run acts' (call_all ps s).2 in
     take_entry U (running s2) = Some ((t, hs), r') →
     attempts t w directory →
     let s3 := queue_finish U w s2 in
     hs = [h] ∧
     settled h s2 = None ∧ fetches U s2 = 0 ∧
     fetches U s3 = 1 ∧ queued U s3 = 0 ∧
     settled h s3 = Some (pushToQueue t w (effects s2)).2.2 ∧
     ∀ acts'', let s4 := run acts'' s3 in
               fetches U s4 = 1 ∧ settled h s4 = settled h s3).
Proof.
  split; [intros; by apply submit_existing_entry|].
  split; [|split; [apply attempt_requests_once|]].
  - intros acts d hc U ps s Hne Hall HU Hw Hget.
    pose proof (Inv_reachable acts d hc) as HI. fold s in HI.
    destruct ps as [|p ps]; [done|]. clear Hne.
    rewrite (call_all_new s U p ps HI Hall HU Hw Hget).
    destruct (processingCache_get_none _ _ Hget) as [Hno Hinh].
    destruct (inv_absent s HI U Hno) as [Hf Hq].
    exists (next_handle s). cbn [fst snd].
    pose proof (Inv_pushed p U s HI HU Hw Hinh Hno) as HI'.
    split; [done|]. split.
    { unfold settled. cbn.
      destruct (promises s !! next_handle s) eqn:Hp; [|done].
      apply (inv_settled s HI) in Hp. lia. }
    split. { rewrite queued_pushed, Hq, String.eqb_refl. done. }
    split. { done. }
    intros acts'. cbn zeta.
    by apply (inv_once (run acts' (pushed p U s))), Inv_run.
  - intros acts d hc U ps h acts' w t hs r' directory s Hne Hall HU Hw Hget
      Hret s2 Ht Hatt s3.
    pose proof (Inv_reachable acts d hc) as HI. fold s in HI.
    destruct ps as [|p ps]; [done|]. clear Hne.
    destruct (processingCache_get_none _ _ Hget) as [Hno Hinh].
    pose proof (call_all_new s U p ps HI Hall HU Hw Hget) as Hcalls.
    rewrite Hcalls in Hret. cbn in Hret. injection Hret as <- _.
    subst s2 s3. rewrite Hcalls in *. cbn [snd] in *.
    set (s2 := run acts' (pushed p U s)) in *.
    assert (HI2 : Inv s2) by (by apply Inv_run, Inv_pushed).
    assert (Hk : processingCache s2 !! U = Some (next_handle s)).
    { apply run_keeps_entry. cbn. apply lookup_insert_eq. }
    destruct (finish_delivers s2 U w t hs r' (next_handle s) directory
                HI2 Hk Ht Hatt) as (Hhs & _ & Hpend & Hf0 & Hf1 & Hq0 & Hset).
    split; [exact Hhs|]. split; [exact Hpend|]. split; [exact Hf0|].
    split; [exact Hf1|]. split; [exact Hq0|]. split; [exact Hset|].
    intros acts''. cbn zeta.
    set (s3 := queue_finish U w s2) in *.
    assert (HI4 : Inv (run acts'' s3)) by (by apply Inv_run, Inv_finish).
    split.
    + pose proof (run_fetches_mono acts'' s3 U).
      pose proof (inv_once _ HI4 U). lia.
    + etrans; [|symmetry; exact Hset]. by apply run_keeps_settled.
Qed.

(** ** Failures *)




(** The callback never gets an error, so `failed` never fires, and once a
    run has got as far as the download it does not reject: whatever goes
    wrong inside the [try] becomes [null]. *)
Lemma pushToQueue_never_errors (t : Task) (w : World) (eff : Eff) :
  (pushToQueue t w eff).2.1 = None.
Proof.
  unfold pushToQueue.
  by destruct (processRemoteNode t w eff) as [eff' [[n|]|e]].
Qed.

Lemma attempted_run_never_rejects (t : Task) (w : World) (eff : Eff) directory :
  attempts t w directory →
  ∃ eff' r, processRemoteNode t w eff = (eff', inl r).
Proof.
  intros [Hs Hc Hd Hg]. unfold_async. cbn. rewrite Hs, Hd, Hc, Hg. cbn.
  repeat (case_match; simplify_eq/=); by do 2 eexists.
Qed.

(** A failure before the download is not swallowed by [processRemoteNode]:
    [pushToQueue] catches it and hands the error itself to the callback as
    the result. *)
Lemma failure_before_fetch_yields_error (t : Task) (w : World) (eff : Eff) e :
  task_store t = NotAStore TyObject ∨ ensureDir_fails w = Some e →
  ∃ e', pushToQueue t w eff = (eff, (None, VError e')).
Proof.
  unfold pushToQueue. unfold_async. cbn.
  intros [Hs|Hd].
  - rewrite Hs. by eexists.
  - destruct (task_store t); [|by eexists]. rewrite Hd. by eexists.
Qed.

(** ** Invalid urls *)

(** Short of the names that [Object.prototype] answers to, a call with an
    invalid url resolves at once and leaves the state alone. *)
Lemma invalid_url_resolves_empty (p : CreateRemoteFileNodePayload) (s : State) :
  well_configured p = true →
  invalid_url (url p) →
  processingCache_get (processingCache s) (template (url p)) = NoProperty →
  createRemoteFileNode p s = (Returns RResolved, s).
Proof.
  intros Hc Hinv Hget. rewrite submit_configured by done. rewrite Hget.
  destruct (url p) as [| |u]; [done..|]. cbn in Hinv.
  destruct (String.eqb_spec u ""); [done|].
  destruct Hinv as [?| ->]; done.
Qed.

(** A name that [Object.prototype] answers to, and that has no entry of
    its own, comes back as the inherited member: the guard is not reached. *)
Lemma inherited_name_lookup (p : CreateRemoteFileNodePayload) (s : State) :
  well_configured p = true →
  inherited (template (url p)) = true →
  processingCache s !! template (url p) = None →
  createRemoteFileNode p s = (Returns (RInherited (template (url p))), s).
Proof.
  intros Hc Hinh Hno. rewrite submit_configured by done.
  unfold processingCache_get. by rewrite Hno, Hinh.
Qed.

(** In a state the system can reach no invalid url has an entry, so the
    lookup above can only miss or hit an inherited name. *)
Lemma invalid_url_resolves_empty_reachable
    (acts : list action) d hc (p : CreateRemoteFileNodePayload) :
  let s := run acts (init d hc) in
  well_configured p = true →
  template (url p) = "" ∨ isWebUri (template (url p)) = None →
  inherited (template (url p)) = false →
  createRemoteFileNode p s = (Returns RResolved, s).
Proof.
  intros s Hc Hinv Hinh.
  pose proof (Inv_reachable acts d hc) as HI. fold s in HI.
  assert (Hno : processingCache s !! template (url p) = None).
  { destruct (processingCache s !! template (url p)) eqn:Hk; [|done].
    destruct (inv_valid s HI _ _ Hk) as (Hne & [v Hv] & _).
    destruct Hinv; congruence. }
  rewrite submit_configured by done.
  unfold processingCache_get. rewrite Hno, Hinh.
  destruct (url p) as [| |u]; [done..|]. cbn in Hinv.
  destruct (String.eqb_spec u ""); [done|].
  destruct Hinv as [?| ->]; done.
Qed.

(** ** The concurrency ceiling *)

Lemma queue_push_ids (t : Task) h (s : State) :
  ∃ admitted, ids (waiting (queue_push t h s)) = ids (waiting s) ++ admitted.
Proof.
  unfold queue_push.
  destruct (merge_into _ _ (waiting s)) as [w'|] eqn:Hw.
  - exists []. cbn. rewrite app_nil_r. by eapply merge_into_ids.
  - destruct (merge_into _ _ (running s)).
    + exists []. cbn. by rewrite app_nil_r.
    + exists [task_url t]. cbn. unfold ids. by rewrite map_app.
Qed.

Lemma queue_push_running (t : Task) h (s : State) :
  ids (running (queue_push t h s)) = ids (running s).
Proof.
  unfold queue_push.
  destruct (merge_into _ _ (waiting s)); [done|].
  destruct (merge_into _ _ (running s)) eqn:Hr; [|done].
  cbn. by eapply merge_into_ids.
Qed.

(** C9: in every state the system can reach at most 200 tasks are
    executing. A worker starts only on the oldest waiting task and only
    while fewer than 200 are executing; a call admits at the tail of the
    waiting line and does not reorder it; a completion leaves the line
    alone. *)
Theorem concurrency_ceiling :
  (∀ (acts : list action) d hc,
     length (running (run acts (init d hc))) ≤ 200) ∧
  (∀ s : State,
     queue_start s = s ∨
     ∃ e w', waiting s = e :: w' ∧ length (running s) < 200 ∧
             waiting (queue_start s) = w' ∧
             running (queue_start s) = running s ++ [e]) ∧
  (∀ (p : CreateRemoteFileNodePayload) (s : State),
     ids (running (createRemoteFileNode p s).2) = ids (running s)) ∧
  (∀ (p : CreateRemoteFileNodePayload) (s : State),
     ∃ admitted,
       ids (waiting (createRemoteFileNode p s).2) = ids (waiting s) ++ admitted) ∧
  (∀ u (w : World) (s : State), waiting (queue_finish u w s) = waiting s).
Proof.
  split; [|split; [|split; [|split]]].
  - intros acts d hc. apply (inv_ceiling _ (Inv_reachable acts d hc)).
  - intros s. unfold queue_start. destruct (waiting s) as [|e w']; [by left|].
    case_decide; [|by left]. right. by exists e, w'.
  - intros p s. unfold createRemoteFileNode.
    repeat (case_match; try done); simplify_eq.
    match goal with H : pushTask _ _ = _ |- _ =>
      unfold pushTask in H; injection H as <- <- end.
    cbn [snd running]. by rewrite queue_push_running.
  - intros p s. unfold createRemoteFileNode.
    repeat (case_match; try (by exists []; rewrite app_nil_r)); simplify_eq.
    match goal with H : pushTask _ _ = _ |- _ =>
      unfold pushTask in H; injection H as <- <- end.
    cbn [snd waiting].
    match goal with |- context [queue_push ?t ?h ?s1] =>
      destruct (queue_push_ids t h s1) as [adm ->] end.
    by exists adm.
  - intros u w s. unfold queue_finish. by repeat case_match.
Qed.

(** * Further properties of one run *)

Lemma cacheId_inj (u u' : string) : cacheId u = cacheId u' → u = u'.
Proof. unfold cacheId. cbn. intros Heq. by simplify_eq. Qed.


Lemma new_events_request_full (t : Task) (w : World) (eff : Eff) u h tmp :
  EvRequest u h tmp ∈ new_events t w eff →
  u = task_url t ∧
  h = build_headers (task_auth t) (header_cache eff !! cacheId (task_url t)).
Proof.
  unfold new_events. unfold_async. cbn.
  repeat (case_match; simplify_eq/=);
    rewrite <- ?app_assoc, ?drop_app_length, ?drop_all; cbn;
    rewrite ?elem_of_cons, ?elem_of_nil; intros Hin;
    decompose [or False] Hin; simplify_eq; done.
Qed.

(** X4: a run writes the header cache at most under the key of its own
    url: the entry of every other url is as before, whatever happens
    during the run. *)
Theorem header_cache_frame (t : Task) (w : World) (eff : Eff) (u' : string) :
  u' ≠ task_url t →
  header_cache (processRemoteNode t w eff).1 !! cacheId u'
  = header_cache eff !! cacheId u'.
Proof.
  intros Hne.
  assert (Hk : cacheId (task_url t) ≠ cacheId u').
  { intros Heq%cacheId_inj. congruence. }
  unfold_async. cbn.
  repeat (case_match; simplify_eq/=); rewrite ?lookup_insert_ne by done; done.
Qed.


(** X6: a run registers a node exactly when it returns one, and then it
    registers that very node, once, with gatsby-source-filesystem as its
    owner; the node is the one [createFileNode] built for a final file name
    of the task on the disk as the run leaves it, with the description
    [File "<url>"]. A run that returns [null] or rejects registers
    nothing. *)
Theorem node_registered_iff_returned (t : Task) (w : World) (eff : Eff) :
  let eff' := (processRemoteNode t w eff).1 in
  match (processRemoteNode t w eff).2 with
  | inl (Some n) =>
      nodes eff' = nodes eff ++ [(n, OWNER)] ∧
      ∃ directory e n0,
        task_store t = ReduxStore directory ∧
        createFileNode (disk eff') (filename_of directory (task_url t) e)
          = Some n0 ∧
        n = set_description n0 (description (task_url t))
  | _ => nodes eff' = nodes eff
  end.
Proof.
  unfold_async. cbn.
  repeat (case_match; simplify_eq/=); try done.
  all: split; [done|]; do 3 eexists; split; [done|]; split; [|done]; eauto.
Qed.

(** X7: when [cache.set] rejects after the body has been downloaded, the
    run returns [null], leaves the header cache and the registered nodes
    as they were, and the temp file stays on disk with the whole body. *)
Theorem cache_set_failure_leaves_temp_file
    (t : Task) (w : World) (eff : Eff) directory r body e :
  attempts t w directory →
  request w = ResponseFinished r body →
  cache_set_fails w = Some e →
  let eff' := (processRemoteNode t w eff).1 in
  (processRemoteNode t w eff).2 = inl None ∧
  disk eff' !! tmpFilename_of directory (task_url t)
                 (initial_ext (task_ext t) (task_url t)) = Some (File body) ∧
  header_cache eff' = header_cache eff ∧
  nodes eff' = nodes eff.
Proof.
  intros [Hs Hc Hd Hg] Hreq Hset.
  unfold_async. cbn. rewrite Hs, Hd, Hc, Hg, Hreq, Hset. cbn.
  by rewrite lookup_insert_eq.
Qed.

(** X8: only status 200 materialises anything. For every other status
    with which the download completes (304, but also 204 or 206) the temp
    file is removed and the body is thrown away: whatever was on the disk
    elsewhere is still there, and nothing new appears except, when they
    were missing, the plugin cache directory and the directories above
    it, which [ensureDir] makes. *)
Theorem other_status_discards_body
    (t : Task) (w : World) (eff : Eff) directory r body :
  finishes t w directory r body →
  statusCode r ≠ 200%Z →
  let tmp := tmpFilename_of directory (task_url t)
               (initial_ext (task_ext t) (task_url t)) in
  let d' := disk (processRemoteNode t w eff).1 in
  d' !! tmp = None ∧
  (∀ q old, q ≠ tmp → disk eff !! q = Some old → d' !! q = Some old) ∧
  (∀ q, q ≠ tmp → q ≠ pluginCacheDir_of directory →
        q ∉ path_ancestors (pluginCacheDir_of directory) →
        d' !! q = disk eff !! q) ∧
  (tmp ≠ pluginCacheDir_of directory →
   is_Some (d' !! pluginCacheDir_of directory)).
Proof.
  intros Hfin Hst tmp d'.
  destruct (finished_run t w eff directory r body Hfin) as (Hd & _ & _).
  fold tmp d' in Hd. apply Z.eqb_neq in Hst. rewrite Hst in Hd.
  rewrite Hd. split; [apply lookup_delete_eq|]. split; [|split].
  - intros q old Hq Hold. rewrite lookup_delete_ne, lookup_insert_ne by done.
    by apply ensured_lookup.
  - intros q Hq Hdir Hup. rewrite lookup_delete_ne, lookup_insert_ne by done.
    by apply ensured_lookup_ne.
  - intros Hne. rewrite lookup_delete_ne, lookup_insert_ne by done.
    apply fs_mkdirs_made. rewrite elem_of_app, list_elem_of_singleton. tauto.
Qed.

(** X9: the entity tag comes back. After a run whose download completed
    with the headers [headers r], the next run for the same url sends as
    [If-None-Match] the non-empty [etag] of those headers, and sends none
    when they carry no such tag. *)
Theorem etag_round_trip
    (t t' : Task) (w w' : World) (eff : Eff) directory r body u h tmp :
  finishes t w directory r body →
  task_url t' = task_url t →
  EvRequest u h tmp ∈ new_events t' w' (processRemoteNode t w eff).1 →
  hdr_if_none_match h = cached_etag (Some (headers r)).
Proof.
  intros Hfin Hu Hin.
  apply new_events_request_full in Hin as [_ ->].
  destruct (finished_run t w eff directory r body Hfin) as (_ & Hc & _).
  cbn. rewrite Hu, Hc. by rewrite lookup_insert_eq.
Qed.

(** X10: fetching again after a restart keeps the file. When a first run
    materialised the body of a 200 response and a later run for the same
    task completes with another status, the file at the final path still
    holds the body of the first run and no temp file is left, provided the
    extension is known without looking at the content and the temp and the
    final path differ. *)
Theorem revalidation_keeps_file
    (t : Task) (w1 w2 : World) (eff : Eff) directory r1 body1 r2 body2 :
  finishes t w1 directory r1 body1 → statusCode r1 = 200%Z →
  finishes t w2 directory r2 body2 → statusCode r2 ≠ 200%Z →
  initial_ext (task_ext t) (task_url t) ≠ "" →
  let e := initial_ext (task_ext t) (task_url t) in
  let tmp := tmpFilename_of directory (task_url t) e in
  let filename := filename_of directory (task_url t) e in
  tmp ≠ filename →
  let d2 := disk (processRemoteNode t w2 (processRemoteNode t w1 eff).1).1 in
  d2 !! filename = Some (File body1) ∧ d2 !! tmp = None.
Proof.
  intros Hf1 Hs1 Hf2 Hs2 Hext e tmp filename Hne d2.
  assert (Hres : ∀ body, resolved_ext t body = e).
  { intros body. unfold resolved_ext. apply String.eqb_neq in Hext.
    by rewrite Hext. }
  destruct (finished_run t w1 eff directory r1 body1 Hf1) as (Hd1 & _ & _).
  destruct (finished_run t w2 (processRemoteNode t w1 eff).1 directory r2
              body2 Hf2) as (Hd2 & _ & _).
  rewrite Hres in Hd1, Hd2. fold e tmp filename in Hd1, Hd2. fold d2 in Hd2.
  rewrite Hs1 in Hd1. apply Z.eqb_neq in Hs2. rewrite Hs2 in Hd2. cbn in Hd1.
  rewrite Hd2. split; [|apply lookup_delete_eq].
  rewrite lookup_delete_ne, lookup_insert_ne by done.
  apply ensured_lookup. rewrite Hd1. apply lookup_insert_eq.
Qed.

(** X16: a request for a task with both credentials carries them as
    [user:pass]; it is enough that one of the two is non-empty, the empty
    one then contributes nothing to the text. *)
Theorem auth_header_with_both_credentials
    (t : Task) (w : World) (eff : Eff) u h tmp (user pass : string) :
  EvRequest u h tmp ∈ new_events t w eff →
  task_auth t = Some (mkAuth (SStr user) (SStr pass)) →
  user ≠ "" ∨ pass ≠ "" →
  hdr_auth h = Some (user +:+ ":" +:+ pass).
Proof.
  intros [_ ->]%new_events_request_full Ha Hne. cbn. rewrite Ha.
  unfold auth_header. cbn.
  destruct Hne as [Hu%String.eqb_neq|Hp%String.eqb_neq].
  - by rewrite Hu, orb_true_r.
  - by rewrite Hp.
Qed.

(** X19: when the response stream fails, the run returns [null] and no
    temp file is left, whether or not a stale one was there before;
    whatever was on the disk elsewhere is still there, and nothing new
    appears except, when they were missing, the plugin cache directory and
    the directories above it. *)
Theorem response_error_removes_temp_file
    (t : Task) (w : World) (eff : Eff) directory e :
  attempts t w directory →
  request w = ResponseStreamError e →
  let tmp := tmpFilename_of directory (task_url t)
               (initial_ext (task_ext t) (task_url t)) in
  let d' := disk (processRemoteNode t w eff).1 in
  (processRemoteNode t w eff).2 = inl None ∧
  d' !! tmp = None ∧
  (∀ q old, q ≠ tmp → disk eff !! q = Some old → d' !! q = Some old) ∧
  (∀ q, q ≠ tmp → q ≠ pluginCacheDir_of directory →
        q ∉ path_ancestors (pluginCacheDir_of directory) →
        d' !! q = disk eff !! q).
Proof.
  intros Hatt Hreq tmp d'.
  assert (Herr : is_Some (stream_error (request w))) by (rewrite Hreq; by eexists).
  pose proof (failed_run t w eff directory Hatt Herr) as Hrun.
  cbn zeta in Hrun. subst d'. rewrite Hrun, Hreq. cbn. fold tmp.
  split; [done|]. split; [apply lookup_delete_eq|]. split.
  - intros q old Hq Hold. rewrite lookup_delete_ne by done.
    by apply ensured_lookup.
  - intros q Hq Hdir Hup. rewrite lookup_delete_ne by done.
    by apply ensured_lookup_ne.
Qed.

(** X20: the good case. When the download completes with status 200,
    no collaborator fails and [createFileNode] builds a node for the final
    file, the run returns that node with the description [File "<url>"],
    registers it, and the final file holds the downloaded body. *)
Theorem successful_fetch_returns_node
    (t : Task) (w : World) (eff : Eff) directory r body n0 :
  finishes t w directory r body →
  statusCode r = 200%Z →
  createNode_throws w = None →
  let filename := filename_of directory (task_url t) (resolved_ext t body) in
  let eff' := (processRemoteNode t w eff).1 in
  createFileNode (disk eff') filename = Some n0 →
  let n := set_description n0 (description (task_url t)) in
  (processRemoteNode t w eff).2 = inl (Some n) ∧
  nodes eff' = nodes eff ++ [(n, OWNER)] ∧
  disk eff' !! filename = Some (File body).
Proof.
  intros Hfin Hst Hcn filename eff' Hnode n.
  destruct (finished_run t w eff directory r body Hfin) as (Hd & _ & _).
  fold filename eff' in Hd. rewrite Hst in Hd. cbn in Hd.
  rewrite Hd in Hnode.
  assert (Hdisk : disk eff' !! filename = Some (File body)).
  { rewrite Hd. apply lookup_insert_eq. }
  split; [|split; [|done]]; clear Hdisk Hd; subst eff' n filename;
    destruct Hfin; revert Hnode; unfold resolved_ext, ensured;
    unfold_async; cbn;
    rewrite fin_store0, fin_ensureDir0, fin_cache0, fin_cache_get0,
      fin_request0, fin_cache_set0, fin_fs_op0, Hst, Hcn;
    cbn; unfold readChunk_sync, fs_move; cbn;
    destruct (String.eqb (initial_ext (task_ext t) (task_url t)) "");
    cbn; rewrite ?lookup_insert_eq; cbn; rewrite ?lookup_insert_eq; cbn;
    by intros ->.
Qed.

(** X21: the header cache is written before the file is moved. When
    [fs.move] or [fs.remove] rejects after a completed download, the run
    returns [null] and registers nothing, yet the cache already holds the
    headers of the response, and the temp file stays on disk with the
    body. *)
Theorem fs_failure_after_cache_write
    (t : Task) (w : World) (eff : Eff) directory r body e :
  attempts t w directory →
  request w = ResponseFinished r body →
  cache_set_fails w = None →
  fs_op_fails w = Some e →
  let tmp := tmpFilename_of directory (task_url t)
               (initial_ext (task_ext t) (task_url t)) in
  let eff' := (processRemoteNode t w eff).1 in
  (processRemoteNode t w eff).2 = inl None ∧
  header_cache eff' !! cacheId (task_url t) = Some (headers r) ∧
  disk eff' !! tmp = Some (File body) ∧
  nodes eff' = nodes eff.
Proof.
  intros [Hs Hc Hd Hg] Hreq Hset Hfs tmp eff'. subst eff' tmp.
  unfold_async. cbn. rewrite Hs, Hd, Hc, Hg, Hreq, Hset. cbn.
  unfold readChunk_sync.
  destruct (String.eqb (initial_ext (task_ext t) (task_url t)) ""); cbn;
    rewrite ?lookup_insert_eq; cbn;
    destruct (statusCode r =? 200)%Z; cbn; rewrite Hfs; cbn;
    by rewrite !lookup_insert_eq.
Qed.

(** * Further properties of the front door and the queue *)

(** X1: the four [typeof] checks come first. A call throws exactly when
    one of them fails, it then changes nothing, and the message names the
    first failing argument in the order createNodeId, createNode, store,
    cache, together with the [typeof] found. *)
Theorem configuration_error_first (p : CreateRemoteFileNodePayload) (s : State) :
  (well_configured p = false ↔ ∃ m, (createRemoteFileNode p s).1 = Throws m) ∧
  (well_configured p = false → (createRemoteFileNode p s).2 = s) ∧
  (is_function (createNodeId p) = false →
     (createRemoteFileNode p s).1
     = Throws ("createNodeId must be a function, was "
               +:+ type_name (createNodeId p))) ∧
  (is_function (createNodeId p) = true →
   is_function (createNode p) = false →
     (createRemoteFileNode p s).1
     = Throws ("createNode must be a function, was "
               +:+ type_name (createNode p))) ∧
  (is_function (createNodeId p) = true → is_function (createNode p) = true →
   is_object (typeof_store (store p)) = false →
     (createRemoteFileNode p s).1
     = Throws ("store must be the redux store, was "
               +:+ type_name (typeof_store (store p)))) ∧
  (is_function (createNodeId p) = true → is_function (createNode p) = true →
   is_object (typeof_store (store p)) = true →
   is_object (typeof_cache (cache p)) = false →
     (createRemoteFileNode p s).1
     = Throws ("cache must be the Gatsby cache, was "
               +:+ type_name (typeof_cache (cache p)))).
Proof.
  split; [|split; [|split; [|split; [|split]]]].
  - destruct (well_configured p) eqn:Hc.
    + split; [done|]. intros [m Hm]. rewrite submit_configured in Hm by done.
      repeat case_match; simplify_eq/=.
    + split; [|done]. intros _. unfold well_configured in Hc.
      unfold createRemoteFileNode.
      destruct (is_function (createNodeId p)); [|by eexists].
      destruct (is_function (createNode p)); [|by eexists].
      destruct (is_object (typeof_store (store p))); [|by eexists].
      destruct (is_object (typeof_cache (cache p))); [done|by eexists].
  - intros Hc. unfold well_configured in Hc. unfold createRemoteFileNode.
    destruct (is_function (createNodeId p)); [|done].
    destruct (is_function (createNode p)); [|done].
    destruct (is_object (typeof_store (store p))); [|done].
    destruct (is_object (typeof_cache (cache p))); done.
  - intros H1. unfold createRemoteFileNode. by rewrite H1.
  - intros H1 H2. unfold createRemoteFileNode. by rewrite H1, H2.
  - intros H1 H2 H3. unfold createRemoteFileNode. by rewrite H1, H2, H3.
  - intros H1 H2 H3 H4. unfold createRemoteFileNode. by rewrite H1, H2, H3, H4.
Qed.

(** X2: the call itself does no input or output and settles nothing:
    whatever it returns, and however many calls are made in a row, the
    disk, the header cache, the registered nodes, the trace of downloads
    and every promise are as before. All of that is left to the worker. *)
Theorem entry_point_does_no_io
    (ps : list CreateRemoteFileNodePayload) (s : State) :
  effects (call_all ps s).2 = effects s ∧
  promises (call_all ps s).2 = promises s.
Proof.
  revert s. induction ps as [|p ps IH]; intros s; [done|].
  cbn [call_all].
  destruct (createRemoteFileNode p s) as [r s1] eqn:Hs.
  destruct (call_all ps s1) as [rs s2] eqn:Hrest. cbn [snd].
  destruct (IH s1) as [He Hp]. rewrite Hrest in He, Hp. cbn [snd] in He, Hp.
  destruct (submit_effects p s) as [He1 Hp1]. rewrite Hs in He1, Hp1.
  cbn [snd] in He1, Hp1. by rewrite He, Hp, He1, Hp1.
Qed.

(** X3: [null] passes for a store, since its [typeof] is [object]. The
    task of such a call is queued like any other; when it runs,
    [store.getState()] throws before the [try], [pushToQueue] hands the
    error over as the result, and the promise of the url is fulfilled with
    that error, not with [null]. Nothing is written or downloaded. *)
Theorem unusable_store_yields_error_value
    (acts : list action) d hc (u : string) (w : World)
    (t : Task) (hs : list handle) (r' : list Entry) (ty : jstype) :
  let s := run acts (init d hc) in
  take_entry u (running s) = Some ((t, hs), r') →
  task_store t = NotAStore ty →
  let s' := queue_finish u w s in
  effects s' = effects s ∧
  ∃ h e, hs = [h] ∧ processingCache s !! u = Some h ∧
         settled h s' = Some (VError e).
Proof.
  intros s Ht Hs s'.
  pose proof (Inv_reachable acts d hc) as HI. fold s in HI.
  destruct (take_entry_perm _ _ _ _ Ht) as [Hid Hperm].
  apply has_id_true in Hid. cbn in Hid.
  assert (Hin : (t, hs) ∈ waiting s ++ running s).
  { apply elem_of_app. right. rewrite Hperm. by left. }
  destruct (inv_entry s HI _ Hin) as (h & Hhs & Hpc & Hpend).
  cbn in Hhs, Hpc. subst hs. rewrite Hid in Hpc.
  subst s'. unfold queue_finish, settled. rewrite Ht.
  unfold pushToQueue. unfold_async. cbn. rewrite Hs. cbn.
  unfold settle. rewrite Hpend. split; [done|].
  do 2 eexists. split; [done|]. split; [done|]. apply lookup_insert_eq.
Qed.

(** X11: in one process no url is downloaded twice, and a download is
    only ever started for a non-empty url that [isWebUri] accepted and
    that has its entry in the dedup table. *)
Theorem one_download_per_valid_url (acts : list action) d hc (u : string) :
  let s := run acts (init d hc) in
  fetches u s ≤ 1 ∧
  (0 < fetches u s →
   u ≠ "" ∧ is_Some (isWebUri u) ∧ is_Some (processingCache s !! u)).
Proof.
  intros s. pose proof (Inv_reachable acts d hc) as HI. fold s in HI.
  split. { pose proof (inv_once s HI u). lia. }
  intros Hpos. destruct (processingCache s !! u) as [h|] eqn:Hk.
  - destruct (inv_valid s HI u h Hk) as (? & ? & _). eauto.
  - destruct (inv_absent s HI u Hk). lia.
Qed.

Lemma foldr_settle_lookup (v : Value) (hs : list handle)
    (m : gmap handle Value) h x :
  foldr (settle v) m hs !! h = Some x → m !! h = Some x ∨ x = v.
Proof.
  revert x. induction hs as [|h0 hs IH]; intros x; cbn; [by left|].
  unfold settle at 1. destruct (foldr (settle v) m hs !! h0) eqn:Hh0.
  - apply IH.
  - destruct (decide (h0 = h)) as [->|Hne].
    + rewrite lookup_insert_eq. intros [= <-]. by right.
    + rewrite lookup_insert_ne by done. apply IH.
Qed.

Lemma ticket_value_defined (t : Task) (w : World) (eff : Eff) :
  ticket_value (pushToQueue t w eff).2 ≠ VUndefined.
Proof.
  unfold pushToQueue.
  by destruct (processRemoteNode t w eff) as [eff' [[n|]|e]].
Qed.

Lemma step_never_undefined (s : State) (a : action) :
  (∀ h, promises s !! h ≠ Some VUndefined) →
  ∀ h, promises (step s a) !! h ≠ Some VUndefined.
Proof.
  intros HP h. destruct a as [p| |u w]; cbn.
  - destruct (submit_effects p s) as [_ ->]. apply HP.
  - unfold queue_start. repeat case_match; apply HP.
  - unfold queue_finish.
    destruct (take_entry u (running s)) as [[[t hs] r']|]; [|apply HP].
    pose proof (ticket_value_defined t w (effects s)) as Hv.
    destruct (pushToQueue t w (effects s)) as [eff' cb]. cbn in *.
    intros [Hold| Heq]%foldr_settle_lookup; [by apply (HP h)|congruence].
Qed.

(** X12: the `failed` handler of [pushTask] never fires, because
    [pushToQueue] always calls back without an error. So no promise of the
    table is ever fulfilled with [undefined]: a caller can tell the
    immediate [undefined] of a url that was turned down from the [null] of
    a fetch that went wrong. *)
Theorem promise_never_undefined (acts : list action) d hc (h : handle) :
  settled h (run acts (init d hc)) ≠ Some VUndefined.
Proof.
  unfold settled. revert h.
  assert (H0 : ∀ h, promises (init d hc) !! h ≠ Some VUndefined) by done.
  revert H0. generalize (init d hc).
  induction acts as [|a acts IH]; intros s HP; [done|].
  cbn. apply IH. by apply step_never_undefined.
Qed.

Lemma count_id_pos (u : string) (q : list Entry) :
  1 ≤ count_id u q → ∃ e, e ∈ q ∧ task_url e.1 = u.
Proof.
  induction q as [|e q IH]; [cbn; lia|]. rewrite count_id_cons.
  destruct (has_id u e) eqn:He.
  - intros _. exists e. split; [by left|]. by apply has_id_true.
  - intros Hq. destruct IH as (e' & ? & ?); [lia|].
    exists e'. split; [by right|done].
Qed.

Lemma Pending_queued_step (s : State) (a : action) :
  Inv s → Pending_queued s → Pending_queued (step s a).
Proof.
  intros HI HP. destruct a as [p| |u w]; cbn.
  - destruct (submit_cases p s HI) as
      [->|(u & _ & _ & Hne & Hw & Hno & Hinh & ->)]; [done|].
    intros u' h'. cbn [snd]. rewrite queued_pushed.
    change (processingCache (pushed p u s))
      with (<[u := next_handle s]> (processingCache s)).
    change (promises (pushed p u s)) with (promises s).
    destruct (decide (u = u')) as [<-|Hneq].
    + rewrite String.eqb_refl. lia.
    + rewrite lookup_insert_ne by done. intros Hk Hp.
      pose proof (HP u' h' Hk Hp). lia.
  - unfold queue_start.
    destruct (waiting s) as [|e w'] eqn:Hw; [done|]. case_decide; [|done].
    assert (Hperm : w' ++ (running s ++ [e]) ≡ₚ waiting s ++ running s).
    { rewrite Hw, app_assoc. cbn. by rewrite <- Permutation_cons_append. }
    intros u h. unfold queued. fields.
    rewrite (count_id_perm _ _ _ Hperm). apply HP.
  - unfold queue_finish.
    destruct (take_entry u (running s)) as [[[t hs] r']|] eqn:Ht; [|done].
    destruct (take_entry_perm _ _ _ _ Ht) as [Hid Hperm].
    assert (Hall : waiting s ++ running s ≡ₚ (t, hs) :: (waiting s ++ r')).
    { rewrite Hperm. by rewrite Permutation_middle. }
    assert (Hin : (t, hs) ∈ waiting s ++ running s).
    { rewrite Hall. by left. }
    destruct (inv_entry s HI _ Hin) as (h & Hhs & Hpc & Hpend).
    cbn in Hhs, Hpc. subst hs.
    destruct (pushToQueue t w (effects s)) as [eff' cb].
    cbn [foldr]. unfold settle. rewrite Hpend.
    intros u' h'. unfold queued. fields. intros Hk Hp.
    destruct (decide (h = h')) as [<-|Hneq].
    { by rewrite lookup_insert_eq in Hp. }
    rewrite lookup_insert_ne in Hp by done.
    pose proof (HP u' h' Hk Hp) as Hq. unfold queued in Hq.
    rewrite (count_id_perm _ _ _ Hall), count_id_cons in Hq.
    unfold has_id in Hq. cbn [fst] in Hq.
    destruct (String.eqb_spec (task_url t) u') as [Heq|]; [|lia].
    subst u'. congruence.
Qed.

Lemma Pending_queued_run (acts : list action) (s : State) :
  Inv s → Pending_queued s → Pending_queued (run acts s).
Proof.
  revert s. induction acts as [|a acts IH]; intros s HI HP; [done|].
  cbn. apply IH; [by apply Inv_step|by apply Pending_queued_step].
Qed.

(** X13: no promise is left hanging. In every state the system can reach,
    the promise stored for a url is pending exactly as long as the task of
    that url is in the queue, waiting or executing; once the queue has
    worked the task off, the promise is settled. *)
Theorem pending_iff_queued (acts : list action) d hc (u : string) (h : handle) :
  let s := run acts (init d hc) in
  processingCache s !! u = Some h →
  (settled h s = None ↔ queued u s = 1).
Proof.
  intros s Hk. pose proof (Inv_reachable acts d hc) as HI. fold s in HI.
  assert (HP : Pending_queued s).
  { apply Pending_queued_run; [apply Inv_init|]. intros ? ? Hnone. done. }
  split.
  - intros Hp. pose proof (HP u h Hk Hp). pose proof (inv_once s HI u). lia.
  - intros Hq. destruct (count_id_pos u (waiting s ++ running s))
      as (e & He & Hu); [unfold queued in Hq; lia|].
    destruct (inv_entry s HI e He) as (h' & _ & Hk' & Hp).
    rewrite Hu, Hk in Hk'. by simplify_eq.
Qed.

Lemma count_le_NoDup (q : list Entry) :
  (∀ u, count_id u q ≤ 1) → NoDup (ids q).
Proof.
  induction q as [|e q IH]; intros Hc; [constructor|].
  cbn. apply NoDup_cons. split.
  - intros (e' & Heq & He')%list_elem_of_fmap.
    pose proof (Hc (task_url e.1)) as Hle. rewrite count_id_cons in Hle.
    unfold has_id at 1 in Hle. rewrite String.eqb_refl in Hle.
    assert (1 ≤ count_id (task_url e.1) q); [|lia].
    apply (count_id_elem _ e'); [done|]. by apply has_id_true.
  - apply IH. intros u. specialize (Hc u). rewrite count_id_cons in Hc. lia.
Qed.

(** X14: the queue never holds two tasks of the same url, and every task
    in it has exactly one ticket: the dedup table answers every repeated
    call before it gets to [queue.push], so the [merge] option of the
    queue never has anything to merge. *)
Theorem queue_has_no_duplicates (acts : list action) d hc :
  let s := run acts (init d hc) in
  NoDup (ids (waiting s ++ running s)) ∧
  Forall (λ e : Entry, ∃ h, e.2 = [h] ∧
                            processingCache s !! task_url e.1 = Some h)
         (waiting s ++ running s).
Proof.
  intros s. pose proof (Inv_reachable acts d hc) as HI. fold s in HI.
  split.
  - apply count_le_NoDup. intros u. pose proof (inv_once s HI u).
    unfold queued in *. lia.
  - apply Forall_forall. intros e He.
    destruct (inv_entry s HI e He) as (h & ? & ? & _). eauto.
Qed.

(** X15: the options of a repeated call are ignored. When a first call
    for a new valid url is followed by a second one for the same url, with
    whatever [auth], [ext], [store] and [cache], both get the same promise
    and the state is the one the first call alone leaves: the one task in
    the queue carries the options of the first call. *)
Theorem repeated_call_options_ignored
    (acts : list action) d hc (U : string) (p1 p2 : CreateRemoteFileNodePayload) :
  let s := run acts (init d hc) in
  url p1 = SStr U → url p2 = SStr U →
  well_configured p1 = true → well_configured p2 = true →
  U ≠ "" → is_Some (isWebUri U) →
  processingCache_get (processingCache s) U = NoProperty →
  call_all [p1; p2] s
  = ([Returns (RPromise (next_handle s)); Returns (RPromise (next_handle s))],
     (createRemoteFileNode p1 s).2) ∧
  (createRemoteFileNode p1 s).2 = pushed p1 U s.
Proof.
  intros s Hu1 Hu2 Hc1 Hc2 HU Hw Hget.
  pose proof (Inv_reachable acts d hc) as HI. fold s in HI.
  destruct (processingCache_get_none _ _ Hget) as [Hno Hinh].
  destruct (inv_absent s HI U Hno) as [_ Hq].
  pose proof (submit_new p1 s U Hc1 Hu1 Hget HU Hw Hq) as Hs1.
  cbn [call_all]. rewrite Hs1. cbn [snd].
  rewrite (submit_existing_entry p2 (pushed p1 U s) (next_handle s)); [done..|].
  rewrite Hu2. cbn. apply lookup_insert_eq.
Qed.

(** X17: a url that the guard turns down is ignored for good. In every
    state the system can reach, a well-configured call whose url is
    missing, [null], empty or not accepted by [isWebUri] returns the
    resolved promise of [Promise.resolve()] and leaves the whole state as
    it was, unless the text of the url is a name that [Object.prototype]
    answers to. For the empty url nothing needs to be assumed. *)
Theorem invalid_url_is_ignored
    (acts : list action) d hc (p : CreateRemoteFileNodePayload) :
  let s := run acts (init d hc) in
  well_configured p = true →
  (url p = SStr "" → createRemoteFileNode p s = (Returns RResolved, s)) ∧
  (isWebUri (template (url p)) = None →
   inherited (template (url p)) = false →
   createRemoteFileNode p s = (Returns RResolved, s)).
Proof.
  intros s Hc. split.
  - intros Hu. apply invalid_url_resolves_empty_reachable; [done|..].
    + left. by rewrite Hu.
    + by rewrite Hu.
  - intros Hw Hinh. apply invalid_url_resolves_empty_reachable; auto.
Qed.

(** X18: two different urls never share a promise, and every promise in
    the dedup table is one that [pushTask] has made. *)
Theorem promises_not_shared (acts : list action) d hc (u u' : string) (h : handle) :
  let s := run acts (init d hc) in
  processingCache s !! u = Some h →
  (processingCache s !! u' = Some h → u = u') ∧ h < next_handle s.
Proof.
  intros s Hk. pose proof (Inv_reachable acts d hc) as HI. fold s in HI.
  split.
  - intros Hk'. by apply (inv_inj s HI u u' h).
  - by apply (inv_handles s HI u).
Qed.

End Properties.

(** * The properties on examples *)

Section Examples.

Existing Instance Demo.collaborators.

Lemma demo_finishes (t : Task) (ev : request_event) r body :
  task_store t = ReduxStore "/site" → task_cache t = GatsbyCache →
  ev = ResponseFinished r body →
  finishes t (Demo.quiet ev) "/site" r body.
Proof. intros ? ? ->. by split. Qed.

(** A request with a user name and no password carries [alice:undefined]. *)
Lemma auth_header_with_one_credential_witness :
  let t := Demo.task Demo.jpg (Some (mkAuth (SStr "alice") SUndefined)) None in
  let w := Demo.quiet (Demo.ok200 Demo.gif) in
  let h := mkHeaders (Some "alice:undefined") (Some "v1") in
  EvRequest Demo.jpg h Demo.tmp_jpg ∈ new_events t w Demo.old_effects ∧
  hdr_auth h = Some "alice:undefined".
Proof.
  intros t w h.
  assert (Hin : EvRequest Demo.jpg h Demo.tmp_jpg
                ∈ new_events t w Demo.old_effects).
  { vm_compute. constructor. }
  split; [exact Hin|].
  apply (proj1 (auth_header_with_one_credential t w Demo.old_effects
                  Demo.jpg h Demo.tmp_jpg Hin)
               (mkAuth (SStr "alice") SUndefined)); reflexivity.
Defined.

(** After a 304 response the cache holds the headers of that response. *)
Lemma headers_saved_after_every_response_witness :
  let t := Demo.task Demo.jpg None None in
  let w := Demo.quiet Demo.revalidated in
  header_cache (processRemoteNode t w Demo.old_effects).1 !! cacheId Demo.jpg
  = Some {[ "etag" := "v1" ]}.
Proof.
  intros t w.
  exact (headers_saved_after_every_response t w Demo.old_effects "/site"
           Demo.r304 []
           (demo_finishes t Demo.revalidated _ _ eq_refl eq_refl eq_refl)).
Defined.

(** C3 as stated fails: the headers cached for the url are an entity tag
    and a content type, the server answers 304 with the entity tag alone,
    and afterwards the cache holds the headers of the 304 response: the
    cached content type is gone. *)
Lemma not_modified_overwrites_cached_headers :
  let t := Demo.task Demo.jpg None None in
  let w := Demo.quiet (ResponseFinished Demo.r304 []) in
  let eff' := (processRemoteNode t w Demo.old_effects).1 in
  statusCode Demo.r304 = 304%Z ∧
  header_cache Demo.old_effects !! cacheId Demo.jpg = Some Demo.old_headers ∧
  header_cache eff' !! cacheId Demo.jpg = Some (headers Demo.r304) ∧
  Demo.old_headers !! "content-type" = Some "image/gif" ∧
  headers Demo.r304 !! "content-type" = None ∧
  header_cache eff' !! cacheId Demo.jpg
    ≠ header_cache Demo.old_effects !! cacheId Demo.jpg.
Proof.
  intros t w eff'.
  assert (Hnew : header_cache eff' !! cacheId Demo.jpg
                 = Some (headers Demo.r304)) by (vm_compute; reflexivity).
  assert (Hold : header_cache Demo.old_effects !! cacheId Demo.jpg
                 = Some Demo.old_headers) by (vm_compute; reflexivity).
  split; [reflexivity|]. split; [exact Hold|]. split; [exact Hnew|].
  split; [vm_compute; reflexivity|]. split; [vm_compute; reflexivity|].
  rewrite Hnew, Hold. discriminate.
Qed.

(** On a 304 response the temp file is gone and the file materialised by
    the earlier fetch is still there. *)
Lemma materialization_witness :
  let t := Demo.task Demo.jpg None None in
  let w := Demo.quiet Demo.revalidated in
  let d' := disk (processRemoteNode t w Demo.old_effects).1 in
  d' !! Demo.tmp_jpg = None ∧ d' !! Demo.final_jpg = Some (File Demo.gif).
Proof.
  intros t w d'.
  pose proof (proj2 (materialization t w Demo.old_effects "/site"
                       Demo.r304 []
                       (demo_finishes t Demo.revalidated _ _
                          eq_refl eq_refl eq_refl))
                    eq_refl) as (Htmp & Hfinal & _).
  split; [exact Htmp|].
  apply Hfinal; [|reflexivity].
  apply String.eqb_neq. reflexivity.
Defined.

(** Explicit [.png], a url ending in [.jpg], content with a GIF signature:
    the file is materialised as [x.png] and the temp file is not read. A
    url without extension and no explicit one: the temp file is read and
    the GIF is materialised as [logo.gif]. *)
Lemma extension_fallback_order_witness :
  let t := Demo.task Demo.jpg None (Some ".png") in
  let t' := Demo.task Demo.bare None None in
  let w := Demo.quiet (Demo.ok200 Demo.gif) in
  (getRemoteFileExtension Demo.jpg = ".jpg" ∧
   fileType Demo.gif = Some "gif" ∧
   disk (processRemoteNode t w Demo.old_effects).1 !! Demo.final_png
   = Some (File Demo.gif) ∧
   ∀ p, EvReadChunk p ∉ new_events t w Demo.old_effects) ∧
  (getRemoteFileExtension Demo.bare = "" ∧
   EvReadChunk Demo.tmp_bare ∈ new_events t' w Demo.old_effects ∧
   disk (processRemoteNode t' w Demo.old_effects).1 !! Demo.final_bare_gif
   = Some (File Demo.gif)).
Proof.
  intros t t' w. split.
  - split; [reflexivity|]. split; [reflexivity|].
    refine (proj1 (extension_fallback_order t w Demo.old_effects "/site"
                     Demo.r200 Demo.gif
                     (demo_finishes t (Demo.ok200 Demo.gif) _ _
                        eq_refl eq_refl eq_refl)
                     eq_refl)
                  ".png" eq_refl _).
    apply String.eqb_neq. reflexivity.
  - split; [reflexivity|].
    destruct (proj2 (proj2 (extension_fallback_order t' w Demo.old_effects
                              "/site" Demo.r200 Demo.gif
                              (demo_finishes t' (Demo.ok200 Demo.gif) _ _
                                 eq_refl eq_refl eq_refl)
                              eq_refl))
                    (or_introl eq_refl) eq_refl) as (Hread & Hsome & _).
    split; [exact Hread|]. exact (Hsome "gif" eq_refl).
Defined.

(** After the fetch of [jpg] has completed, a second call gets promise 0
    again. *)
Lemma entry_never_removed_witness :
  let p := Demo.payload (SStr Demo.jpg) None in
  let acts := [Start; Finish Demo.jpg (Demo.quiet (Demo.ok200 Demo.gif))] in
  let s' := run acts (createRemoteFileNode p Demo.boot).2 in
  processingCache s' !! Demo.jpg = Some 0 ∧
  createRemoteFileNode p s' = (Returns (RPromise 0), s').
Proof.
  intros p acts s'.
  refine (entry_never_removed p p Demo.boot 0 acts _ eq_refl eq_refl).
  vm_compute. reflexivity.
Defined.

(** C1 as stated fails: [jpg] is submitted, its task runs and completes,
    the promise is fulfilled; the entry is still in [processingCache], and
    a new call for [jpg] returns the stored promise, queues nothing and
    leaves the number of downloads at one. *)
Lemma resubmit_after_completion_is_a_replay :
  let p := Demo.payload (SStr Demo.jpg) None in
  let s := run [Submit p; Start;
                Finish Demo.jpg (Demo.quiet (Demo.ok200 Demo.gif))] Demo.boot in
  is_Some (settled 0 s) ∧
  processingCache s !! Demo.jpg = Some 0 ∧
  createRemoteFileNode p s = (Returns (RPromise 0), s) ∧
  queued Demo.jpg (createRemoteFileNode p s).2 = 0 ∧
  fetches Demo.jpg (createRemoteFileNode p s).2 = 1.
Proof.
  intros p s. repeat split; try (vm_compute; reflexivity).
  vm_compute. by eexists.
Qed.

(** Three calls in a row for a new url share promise 0 and one task;
    when that task has been started and finished, [jpg] has been
    downloaded once and promise 0 holds the node. *)
Lemma in_flight_dedup_witness :
  let p := Demo.payload (SStr Demo.jpg) None in
  let ps := [p; p; p] in
  let s := run [] (init ∅ ∅) in
  let w := Demo.quiet (Demo.ok200 Demo.gif) in
  let s3 := queue_finish Demo.jpg w (run [Start] (call_all ps s).2) in
  (∃ h, (call_all ps s).1 = map (λ _, Returns (RPromise h)) ps ∧
        settled h (call_all ps s).2 = None ∧
        queued Demo.jpg (call_all ps s).2 = 1 ∧
        fetches Demo.jpg (call_all ps s).2 = 0 ∧
        ∀ acts', let s' := run acts' (call_all ps s).2 in
                 fetches Demo.jpg s' + queued Demo.jpg s' ≤ 1) ∧
  fetches Demo.jpg s3 = 1 ∧ queued Demo.jpg s3 = 0 ∧
  settled 0 s3
  = Some (VNode (Demo.mkNode Demo.final_jpg 4 (description Demo.jpg))).
Proof.
  intros p ps s w s3.
  assert (Hne : Demo.jpg ≠ "") by (apply String.eqb_neq; reflexivity).
  assert (Hall : Forall (λ p, url p = SStr Demo.jpg ∧ well_configured p = true)
                        ps) by (repeat constructor).
  split.
  - refine (proj1 (proj2 in_flight_dedup) [] ∅ ∅ Demo.jpg ps _ Hall Hne _ _).
    + discriminate.
    + by eexists.
    + reflexivity.
  - destruct (proj2 (proj2 (proj2 in_flight_dedup)) [] ∅ ∅ Demo.jpg ps 0
                [Start] w (Demo.task Demo.jpg (Some empty_auth) None) [0] []
                "/site")
      as (_ & _ & _ & Hf & Hq & Hset & _).
    + discriminate.
    + exact Hall.
    + exact Hne.
    + by eexists.
    + reflexivity.
    + vm_compute. reflexivity.
    + vm_compute. reflexivity.
    + by split.
    + split; [exact Hf|]. split; [exact Hq|].
      etrans; [exact Hset|]. vm_compute. reflexivity.
Defined.



(** C4 at the failing input: the disk fills up after two bytes of the body
    have been written. The write stream fails, the promise of
    [requestRemoteNode] rejects, [processRemoteNode] returns [null], and
    the temp file stays on disk with the two bytes. When it is the response
    stream that fails, the temp file is removed. *)
Theorem write_error_leaves_temp_file :
  let t := Demo.task Demo.jpg None None in
  let written := [Byte.x47; Byte.x49] in
  let disk_full := Demo.quiet (WriteStreamError "ENOSPC" (Some written)) in
  let reset := Demo.quiet (ResponseStreamError "ECONNRESET") in
  (processRemoteNode t disk_full Demo.old_effects).2 = inl None ∧
  disk (processRemoteNode t disk_full Demo.old_effects).1 !! Demo.tmp_jpg
    = Some (File written) ∧
  disk (processRemoteNode t reset Demo.old_effects).1 !! Demo.tmp_jpg = None.
Proof. repeat split; vm_compute; reflexivity. Qed.

(** C8 at the failing input: the text [constructor] is not a web uri, yet
    the call does not resolve to an empty result: the lookup in
    [processingCache] finds the inherited member of that name and the call
    returns it. *)
Theorem inherited_name_is_returned :
  let p := Demo.payload (SStr "constructor") None in
  isWebUri "constructor" = None ∧
  well_configured p = true ∧
  createRemoteFileNode p Demo.boot = (Returns (RInherited "constructor"), Demo.boot).
Proof. repeat split; vm_compute; reflexivity. Qed.

(** A call without [createNodeId] throws before anything else. *)
Lemma configuration_error_first_witness :
  let p := mkPayload (SStr "constructor") (NotAStore TyUndefined) GatsbyCache
                     TyFunction None TyUndefined None in
  (createRemoteFileNode p Demo.boot).1
  = Throws "createNodeId must be a function, was undefined".
Proof.
  intros p.
  exact (proj1 (proj2 (proj2 (configuration_error_first p Demo.boot))) eq_refl).
Defined.

(** [store: null] is queued, and its promise is fulfilled with the
    TypeError. *)
Lemma unusable_store_yields_error_value_witness :
  let p := mkPayload (SStr Demo.jpg) (NotAStore TyObject) GatsbyCache
                     TyFunction (Some empty_auth) TyFunction None in
  let s := run [Submit p; Start] (init ∅ ∅) in
  let w := Demo.quiet (Demo.ok200 Demo.gif) in
  effects (queue_finish Demo.jpg w s) = effects s ∧
  ∃ e, settled 0 (queue_finish Demo.jpg w s) = Some (VError e).
Proof.
  intros p s w.
  destruct (unusable_store_yields_error_value [Submit p; Start] ∅ ∅ Demo.jpg w
              (mkTask Demo.jpg (NotAStore TyObject) GatsbyCache
                      (Some empty_auth) None)
              [0] [] TyObject)
    as (Heff & h & e & Hh & _ & Hset); [vm_compute; reflexivity|reflexivity|].
  split; [exact Heff|]. exists e. injection Hh as <-. exact Hset.
Defined.

(** A fetch of [jpg] leaves the cached headers of [png] alone. *)
Lemma header_cache_frame_witness :
  let t := Demo.task Demo.jpg None None in
  let w := Demo.quiet (Demo.ok200 Demo.gif) in
  header_cache (processRemoteNode t w Demo.old_effects).1 !! cacheId Demo.png
  = header_cache Demo.old_effects !! cacheId Demo.png.
Proof.
  intros t w. apply (header_cache_frame t w Demo.old_effects Demo.png).
  apply String.eqb_neq. reflexivity.
Defined.





(** The cache is down: the downloaded GIF stays in the temp file. *)
Lemma cache_set_failure_leaves_temp_file_witness :
  let t := Demo.task Demo.jpg None None in
  let w := Demo.cache_down (Demo.ok200 Demo.gif) in
  (processRemoteNode t w Demo.blank).2 = inl None ∧
  disk (processRemoteNode t w Demo.blank).1 !! Demo.tmp_jpg
  = Some (File Demo.gif).
Proof.
  intros t w.
  destruct (cache_set_failure_leaves_temp_file t w Demo.blank "/site"
              Demo.r200 Demo.gif "EIO")
    as (Hres & Htmp & _); [by split|reflexivity|reflexivity|].
  split; [exact Hres|exact Htmp].
Defined.

(** A 204 answer on an empty disk leaves no temp file, only the plugin
    cache directory. *)
Lemma other_status_discards_body_witness :
  let t := Demo.task Demo.jpg None None in
  let w := Demo.quiet (ResponseFinished Demo.no_content Demo.gif) in
  disk (processRemoteNode t w Demo.blank).1 !! Demo.tmp_jpg = None ∧
  is_Some (disk (processRemoteNode t w Demo.blank).1
             !! pluginCacheDir_of "/site").
Proof.
  intros t w.
  destruct (other_status_discards_body t w Demo.blank "/site"
              Demo.no_content Demo.gif)
    as (Htmp & _ & _ & Hdir); [by apply demo_finishes|discriminate|].
  split; [exact Htmp|]. apply Hdir.
  apply String.eqb_neq. reflexivity.
Defined.

(** The tag [v1] of a first answer is sent with the next request. *)
Lemma etag_round_trip_witness :
  let t := Demo.task Demo.jpg None None in
  let w := Demo.quiet (Demo.ok200 Demo.gif) in
  let h := mkHeaders None (Some "v1") in
  hdr_if_none_match h = Some "v1".
Proof.
  intros t w h.
  refine (etag_round_trip t t w w Demo.blank "/site" Demo.r200 Demo.gif
            Demo.jpg h Demo.tmp_jpg _ eq_refl _).
  - by apply demo_finishes.
  - vm_compute. constructor.
Defined.

(** 200 with a GIF, then 304: the GIF is still at the final path. *)
Lemma revalidation_keeps_file_witness :
  let t := Demo.task Demo.jpg None None in
  let w1 := Demo.quiet (Demo.ok200 Demo.gif) in
  let w2 := Demo.quiet Demo.revalidated in
  let d2 := disk (processRemoteNode t w2
                    (processRemoteNode t w1 Demo.blank).1).1 in
  d2 !! Demo.final_jpg = Some (File Demo.gif) ∧ d2 !! Demo.tmp_jpg = None.
Proof.
  intros t w1 w2 d2.
  refine (revalidation_keeps_file t w1 w2 Demo.blank "/site" Demo.r200
            Demo.gif Demo.r304 [] _ eq_refl _ _ _ _).
  - by apply demo_finishes.
  - by apply demo_finishes.
  - discriminate.
  - apply String.eqb_neq. reflexivity.
  - apply String.eqb_neq. reflexivity.
Defined.

(** After its one download, [jpg] is a valid url with an entry. *)
Lemma one_download_per_valid_url_witness :
  let p := Demo.payload (SStr Demo.jpg) None in
  let s := run [Submit p; Start;
                Finish Demo.jpg (Demo.quiet (Demo.ok200 Demo.gif))]
               (init ∅ ∅) in
  fetches Demo.jpg s = 1 ∧
  is_Some (isWebUri Demo.jpg) ∧ is_Some (processingCache s !! Demo.jpg).
Proof.
  intros p s.
  assert (Hf : fetches Demo.jpg s = 1) by (vm_compute; reflexivity).
  split; [exact Hf|].
  refine (proj2 (proj2 (one_download_per_valid_url _ ∅ ∅ Demo.jpg) _)).
  fold s. rewrite Hf. lia.
Defined.

(** Right after the call, promise 0 is pending and the task is queued. *)
Lemma pending_iff_queued_witness :
  let p := Demo.payload (SStr Demo.jpg) None in
  let s := run [Submit p] (init ∅ ∅) in
  settled 0 s = None ↔ queued Demo.jpg s = 1.
Proof.
  intros p s.
  refine (pending_iff_queued [Submit p] ∅ ∅ Demo.jpg 0 _).
  vm_compute. reflexivity.
Defined.

(** A second call asking for [.gif] gets the task that asked for [.png]. *)
Lemma repeated_call_options_ignored_witness :
  let p1 := Demo.payload (SStr Demo.jpg) (Some ".png") in
  let p2 := Demo.payload (SStr Demo.jpg) (Some ".gif") in
  let s := run [] (init ∅ ∅) in
  call_all [p1; p2] s
  = ([Returns (RPromise (next_handle s)); Returns (RPromise (next_handle s))],
     (createRemoteFileNode p1 s).2) ∧
  (createRemoteFileNode p1 s).2 = pushed p1 Demo.jpg s.
Proof.
  intros p1 p2 s.
  refine (repeated_call_options_ignored [] ∅ ∅ Demo.jpg p1 p2
            eq_refl eq_refl eq_refl eq_refl _ _ eq_refl).
  - apply String.eqb_neq. reflexivity.
  - by eexists.
Defined.

(** With both credentials the request carries [alice:secret]. *)
Lemma auth_header_with_both_credentials_witness :
  let t := Demo.task Demo.jpg
             (Some (mkAuth (SStr "alice") (SStr "secret"))) None in
  let w := Demo.quiet (Demo.ok200 Demo.gif) in
  let h := mkHeaders (Some "alice:secret") None in
  hdr_auth h = Some "alice:secret".
Proof.
  intros t w h.
  refine (auth_header_with_both_credentials t w Demo.blank Demo.jpg h
            Demo.tmp_jpg "alice" "secret" _ eq_refl _).
  - vm_compute. constructor.
  - left. discriminate.
Defined.

(** A text that is no url resolves at once, also after other calls. *)
Lemma invalid_url_is_ignored_witness :
  let p := Demo.payload (SStr "not a url") None in
  let s := run [Submit (Demo.payload (SStr Demo.jpg) None); Start]
               (init ∅ ∅) in
  createRemoteFileNode p s = (Returns RResolved, s).
Proof.
  intros p s.
  refine (proj2 (invalid_url_is_ignored _ ∅ ∅ p eq_refl) _ _); reflexivity.
Defined.

(** Two urls, two promises. *)
Lemma promises_not_shared_witness :
  let s := run [Submit (Demo.payload (SStr Demo.jpg) None);
                Submit (Demo.payload (SStr Demo.png) None)] (init ∅ ∅) in
  processingCache s !! Demo.jpg = Some 0 ∧
  processingCache s !! Demo.png = Some 1 ∧
  0 < next_handle s.
Proof.
  intros s.
  assert (H0 : processingCache s !! Demo.jpg = Some 0) by (vm_compute; reflexivity).
  split; [exact H0|]. split; [vm_compute; reflexivity|].
  exact (proj2 (promises_not_shared _ ∅ ∅ Demo.jpg Demo.png 0 H0)).
Defined.

(** A reset connection leaves no temp file behind. *)
Lemma response_error_removes_temp_file_witness :
  let t := Demo.task Demo.jpg None None in
  let w := Demo.quiet (ResponseStreamError "ECONNRESET") in
  (processRemoteNode t w Demo.blank).2 = inl None ∧
  disk (processRemoteNode t w Demo.blank).1 !! Demo.tmp_jpg = None.
Proof.
  intros t w.
  destruct (response_error_removes_temp_file t w Demo.blank "/site"
              "ECONNRESET")
    as (Hres & Htmp & _); [by split|reflexivity|].
  split; [exact Hres|exact Htmp].
Defined.

(** The GIF behind [jpg] comes back as a node of four bytes. *)
Lemma successful_fetch_returns_node_witness :
  let t := Demo.task Demo.jpg None None in
  let w := Demo.quiet (Demo.ok200 Demo.gif) in
  let n := Demo.mkNode Demo.final_jpg 4
             (description Demo.jpg) in
  (processRemoteNode t w Demo.blank).2 = inl (Some n) ∧
  nodes (processRemoteNode t w Demo.blank).1 = [(n, OWNER)] ∧
  disk (processRemoteNode t w Demo.blank).1 !! Demo.final_jpg
  = Some (File Demo.gif).
Proof.
  intros t w n.
  refine (successful_fetch_returns_node t w Demo.blank "/site" Demo.r200
            Demo.gif (Demo.mkNode Demo.final_jpg 4 "") _ eq_refl eq_refl _).
  - by apply demo_finishes.
  - vm_compute. reflexivity.
Defined.

(** The move fails: the new tag is cached although no file was made. *)
Lemma fs_failure_after_cache_write_witness :
  let t := Demo.task Demo.jpg None None in
  let w := Demo.move_fails (Demo.ok200 Demo.gif) in
  let eff' := (processRemoteNode t w Demo.blank).1 in
  (processRemoteNode t w Demo.blank).2 = inl None ∧
  header_cache eff' !! cacheId Demo.jpg = Some {[ "etag" := "v1" ]} ∧
  disk eff' !! Demo.tmp_jpg = Some (File Demo.gif) ∧
  disk eff' !! Demo.final_jpg = None.
Proof.
  intros t w eff'.
  destruct (fs_failure_after_cache_write t w Demo.blank "/site" Demo.r200
              Demo.gif "EXDEV")
    as (Hres & Hc & Htmp & _); [by split|reflexivity..|].
  split; [exact Hres|]. split; [exact Hc|]. split; [exact Htmp|].
  vm_compute. reflexivity.
Defined.

End Examples.
